(** * FirstBOT: the course-enquiry assistant of [app.py]

    A shallow embedding of the request handlers and of the retrieval step of
    [app.py], and the properties its specification states about them.

    Conventions of the embedding.
    - A Python [str] is a Rocq [string]; its characters are read as the code
      points below 256, so that the lexicographic order of [String.compare]
      is Python's order on [str] and [str.strip] removes the code points of
      that range Python calls whitespace.
    - A finite float is the rational number it denotes ([Q]): [==] and [<] on
      finite floats are [Qeq_bool] and the strict order of [Q] (two floats
      may be [==] without being identical, as [0.0] and [-0.0]; two rationals
      likewise). NaN is outside the model.
    - The sentence encoder and the cosine similarity are external libraries:
      they are variables of the development. The hosted generative model is
      an oracle from the prompt to either the text of an exception or the
      generated text.
    - [request.session] is passed explicitly; every handler returns its
      response, the session it leaves behind and the steps it performed on
      the external collaborators. *)

From Stdlib Require Import QArith Ascii.
From stdpp Require Import gmap strings list sorting fin_maps.

Close Scope Q_scope.

(** ** Python primitives *)

(** [str.strip()]: whitespace is what [str.isspace] accepts. *)
Definition isspace (c : ascii) : bool :=
  let n := Ascii.N_of_ascii c in
  ((9 <=? n) && (n <=? 13) || (28 <=? n) && (n <=? 32)
   || (n =? 133) || (n =? 160))%N.

Fixpoint lstrip (s : string) : string :=
  match s with
  | String c s' => if isspace c then lstrip s' else s
  | EmptyString => EmptyString
  end.

Definition rstrip (s : string) : string := String.rev (lstrip (String.rev s)).

Definition strip (s : string) : string := rstrip (lstrip s).

(** A string made of whitespace only (the empty string is one). *)
Fixpoint whitespace_only (s : string) : Prop :=
  match s with
  | String c s' => isspace c = true ∧ whitespace_only s'
  | EmptyString => True
  end.

(** [t in s] on strings. *)
Definition contains (s t : string) : Prop := ∃ a b, s = a +:+ t +:+ b.

(** [x or y] for [x : str | None]: [None] and the empty string are falsy. *)
Definition py_or (x : option string) (y : string) : string :=
match x with
| Some s => if String.eqb s "" then y else s
| None => y
end.

Definition LF : string := String (ascii_of_nat 10) "".

(** An insertion-ordered [dict] with [str] keys: the items in the order of
    their first insertion. *)
Module PyDict.

Fixpoint setitem {V} (k : string) (v : V) (d : list (string * V))
  : list (string * V) :=
match d with
| [] => [(k, v)]
| (k', v') :: d' =>
    if String.eqb k' k then (k', v) :: d' else (k', v') :: setitem k v d'
end.

(** [{key(r): value(r) for r in rs}] *)
Definition comprehension {R V} (key : R → string) (value : R → V)
  (rs : list R) : list (string * V) :=
foldl (λ d r, setitem (key r) (value r) d) [] rs.

Definition keys {V} (d : list (string * V)) : list string := d.*1.

End PyDict.

(** [sorted(xs, reverse=True)]: the list is reversed, sorted by a stable
    ascending sort that only asks [<], and reversed again. *)
Section Sorted.
Context {A : Type} (ltb : A → A → bool).

Fixpoint insert_stable (x : A) (l : list A) : list A :=
match l with
| [] => [x]
| y :: l' => if ltb y x then y :: insert_stable x l' else x :: y :: l'
end.

Definition sort_stable (l : list A) : list A := foldr insert_stable [] l.

Definition sorted_reverse (l : list A) : list A :=
reverse (sort_stable (reverse l)).

(** [a] may stand before [b] in an ascending list: [b < a] is false. *)
Definition not_after (a b : A) : Prop := ltb b a = false.

End Sorted.

(** [<] on the tuples [(similarity, name)]: the first components decide
    unless they are [==], then the names do. *)
Definition Qltb (x y : Q) : bool :=
match (x ?= y)%Q with Lt => true | _ => false end.

Definition tuple_ltb (a b : Q * string) : bool :=
if Qeq_bool a.1 b.1 then String.ltb a.2 b.2 else Qltb a.1 b.1.

(** ** Data model *)

Module Course.
Record t := { name : string; description : string;
              instructor : string; duration : string }.
End Course.

Module Instructor.
Record t := { name : string; bio : string }.
End Instructor.

Record Message := { role : string; content : string }.

Record Translation :=
  { original : string; translation : string; language : string }.

(** [request.session]: each of the two keys is absent until first use. *)
Record Session := {
  conversations : option (gmap string (list Message));
  translations : option (gmap string (list Translation)) }.

Module QueryRequest.
Record t := { query : string; conversationId : option string }.
End QueryRequest.

Module TranslateRequest.
Record t := { text : string; target_lang : string;
              conversationId : option string }.
End TranslateRequest.

(** What a handler hands back to the framework: the JSON object it returns
    (status 200), or the [HTTPException] it raises. *)
Inductive Response :=
| JSON (body : list (string * string))
| HTTPException (status_code : nat) (detail : string).

(** What [model.generate_content(prompt)] followed by [.text] does. *)
Inductive Generation :=
| Raises (e : string)
| Text (t : string).

(** The steps a handler performs outside of its own code. *)
Inductive Step :=
| Retrieve (query : string)
| GenerateContent (prompt : string).

(** ** Context and prompt *)

Definition format_context (courses : list Course.t)
  (instructors : list Instructor.t) : string :=
let context := "" in
let context :=
  match courses with
  | [] => context
  | _ =>
    foldl (λ context course,
             context +:+ "- " +:+ Course.name course +:+ ": "
               +:+ Course.description course +:+ " (Instructor: "
               +:+ Course.instructor course +:+ ", Duration: "
               +:+ Course.duration course +:+ ")" +:+ LF)
          (context +:+ "Relevant Courses:" +:+ LF) courses
  end in
let context :=
  match instructors with
  | [] => context
  | _ =>
    foldl (λ context instructor,
             context +:+ "- " +:+ Instructor.name instructor +:+ ": "
               +:+ Instructor.bio instructor +:+ LF)
          (context +:+ LF +:+ "Relevant Instructors:" +:+ LF) instructors
  end in
strip context.

(** The line one message adds to the prompt. *)
Definition history_line (msg : Message) : string :=
role msg +:+ ": " +:+ content msg +:+ LF.

Definition prompt_header (context : string) : string :=
LF +:+ "    Context information:" +:+ LF
   +:+ "    " +:+ context +:+ LF
   +:+ LF
   +:+ "    Conversation history:" +:+ LF
   +:+ "    ".

Definition prompt_footer (question : string) : string :=
LF +:+ "    Current question: " +:+ question +:+ LF
   +:+ "    " +:+ LF
   +:+ "    Please provide a helpful response based on the context and conversation history." +:+ LF
   +:+ "    ".

Definition build_prompt_with_context (question context : string)
  (conversation_history : list Message) : string :=
let prompt := prompt_header context in
let prompt :=
  foldl (λ prompt msg, prompt +:+ history_line msg) prompt
        (drop 1 conversation_history) in
prompt +:+ prompt_footer question.

(** ** Handlers: session state, exceptions and the steps performed *)

Record State := { session : Session; steps : list Step }.

(** A computation reads and updates the state and either raises an exception
    (kept as its [str(e)]) or returns. *)
Definition M (A : Type) : Type := State → (string + A) * State.

Definition ret {A} (a : A) : M A := λ st, (inr a, st).

Definition bind {A B} (m : M A) (k : A → M B) : M B :=
λ st, match m st with
      | (inr a, st') => k a st'
      | (inl e, st') => (inl e, st')
      end.

Definition raise {A} (e : string) : M A := λ st, (inl e, st).

(** [try: body / except Exception as e: handler(e)]; what the body did to the
    state before it raised stays done. *)
Definition try_except {A} (body : M A) (handler : string → M A) : M A :=
λ st, match body st with
      | (inr a, st') => (inr a, st')
      | (inl e, st') => handler e st'
      end.

Notation "x <- m ;; k" := (bind m (λ x, k))
  (at level 100, m at next level, right associativity).
Notation "m ;;; k" := (bind m (λ _, k))
  (at level 100, right associativity).

Definition KeyError {A} (key : string) : M A := raise ("'" +:+ key +:+ "'").

Definition get_session : M Session := λ st, (inr (session st), st).

Definition set_session (s : Session) : M unit :=
λ st, (inr (), {| session := s; steps := steps st |}).

Definition log (step : Step) : M unit :=
λ st, (inr (), {| session := session st; steps := steps st ++ [step] |}).

(** [request.session['conversations']] *)
Definition session_conversations : M (gmap string (list Message)) :=
s <- get_session ;;
match conversations s with
| Some convs => ret convs
| None => KeyError "conversations"
end.

(** [request.session['conversations'] = convs]; also what an update in place
    of the dictionary amounts to. *)
Definition set_session_conversations (convs : gmap string (list Message))
  : M unit :=
s <- get_session ;;
set_session {| conversations := Some convs; translations := translations s |}.

(** [request.session['conversations'][conversation_id]] *)
Definition conversation (conversation_id : string) : M (list Message) :=
convs <- session_conversations ;;
match convs !! conversation_id with
| Some history => ret history
| None => KeyError conversation_id
end.

(** [request.session['conversations'][conversation_id].append(msg)] *)
Definition conversation_append (conversation_id : string) (msg : Message)
  : M unit :=
convs <- session_conversations ;;
match convs !! conversation_id with
| Some history =>
    set_session_conversations (<[conversation_id := history ++ [msg]]> convs)
| None => KeyError conversation_id
end.

(** [request.session['translations']] *)
Definition session_translations : M (gmap string (list Translation)) :=
s <- get_session ;;
match translations s with
| Some trs => ret trs
| None => KeyError "translations"
end.

Definition set_session_translations (trs : gmap string (list Translation))
  : M unit :=
s <- get_session ;;
set_session {| conversations := conversations s; translations := Some trs |}.

(** [request.session['translations'][conversation_id].append(record)] *)
Definition translations_append (conversation_id : string)
  (record : Translation) : M unit :=
trs <- session_translations ;;
match trs !! conversation_id with
| Some records =>
    set_session_translations (<[conversation_id := records ++ [record]]> trs)
| None => KeyError conversation_id
end.

(** [model.generate_content(prompt).text] *)
Definition generate_text (generate_content : string → Generation)
  (prompt : string) : M string :=
log (GenerateContent prompt) ;;;
match generate_content prompt with
| Text t => ret t
| Raises e => raise e
end.

(** The outermost [try] of both handlers: whatever is raised inside becomes
    an [HTTPException] with status 500. *)
Definition endpoint (handler : M Response) (s : Session) : Response * State :=
match handler {| session := s; steps := [] |} with
| (inr r, st) => (r, st)
| (inl e, st) => (HTTPException 500 ("An error occurred: " +:+ e), st)
end.

Definition system_message : Message :=
{| role := "system";
   content := "You are a helpful course enquiry assistant." |}.

Definition user_message (question : string) : Message :=
{| role := "user"; content := question |}.

Definition assistant_message (response : string) : Message :=
{| role := "assistant"; content := response |}.

Definition translation_prompt (target_lang text : string) : string :=
LF +:+ "        Translate the following English text to " +:+ target_lang
   +:+ ". " +:+ LF
   +:+ "        Keep the meaning accurate but make the translation sound natural in the target language." +:+ LF
   +:+ "        " +:+ LF
   +:+ "        Text to translate: " +:+ text +:+ LF
   +:+ "        ".

(** [POST /api/translate]; [uuid4] is what [str(uuid.uuid4())] would give. *)
Definition translate_handler (generate_content : string → Generation)
  (uuid4 : string) (data : TranslateRequest.t) : M Response :=
let text := strip (TranslateRequest.text data) in
let target_lang := TranslateRequest.target_lang data in
let conversation_id := py_or (TranslateRequest.conversationId data) uuid4 in
if decide (text = "") then
  ret (JSON [("translation", "No text to translate")])
else
  let prompt := translation_prompt target_lang text in
  try_except
    (generated <- generate_text generate_content prompt ;;
     let translation := strip generated in
     s <- get_session ;;
     (if translations s is None then set_session_translations ∅
      else ret ()) ;;;
     trs <- session_translations ;;
     (if trs !! conversation_id is None
      then set_session_translations (<[conversation_id := []]> trs)
      else ret ()) ;;;
     translations_append conversation_id
       {| original := text; translation := translation;
          language := target_lang |} ;;;
     ret (JSON [("translation", translation)]))
    (λ e, ret (JSON [("translation", "Translation failed: " +:+ e)])).

Definition translate (generate_content : string → Generation)
  (uuid4 : string) (s : Session) (data : TranslateRequest.t)
  : Response * State :=
endpoint (translate_handler generate_content uuid4 data) s.

(** The closed form of [translate] on a text to translate: what the request
    returns and leaves behind, according to the fate of its call to the
    model. It is proved equal to the handler below. *)
Definition translate_outcome (generate_content : string → Generation)
  (uuid4 : string) (s : Session) (data : TranslateRequest.t)
  : Response * State :=
let text := strip (TranslateRequest.text data) in
let target_lang := TranslateRequest.target_lang data in
let conversation_id := py_or (TranslateRequest.conversationId data) uuid4 in
let prompt := translation_prompt target_lang text in
match generate_content prompt with
| Text generated =>
    (JSON [("translation", strip generated)],
     {| session :=
          {| conversations := conversations s;
             translations :=
               Some (<[conversation_id :=
                         default [] (translations s ≫= (.!! conversation_id))
                         ++ [{| original := text;
                                translation := strip generated;
                                language := target_lang |}]]>
                       (default ∅ (translations s))) |};
        steps := [GenerateContent prompt] |})
| Raises e =>
    (JSON [("translation", "Translation failed: " +:+ e)],
     {| session := s; steps := [GenerateContent prompt] |})
end.

(** ** Retrieval and the query endpoint *)

(** The history a request finds under [conversation_id]: the stored one, or
    the system message that opens a new conversation. *)
Definition found_history (s : Session) (conversation_id : string)
  : list Message :=
default [system_message] (conversations s ≫= (.!! conversation_id)).

Section App.
(** [sentence_model.encode] and sklearn's [cosine_similarity]. *)
Context {Embedding : Type}.
Context (encode : string → Embedding).
Context (cosine_similarity : Embedding → Embedding → Q).
(** [data/courses.json] and [data/instructors.json]. *)
Context (courses : list Course.t) (instructors : list Instructor.t).

Definition course_embeddings : list (string * Embedding) :=
PyDict.comprehension Course.name
  (λ course, encode (Course.name course +:+ " " +:+ Course.description course))
  courses.

Definition instructor_embeddings : list (string * Embedding) :=
PyDict.comprehension Instructor.name
  (λ instructor,
     encode (Instructor.name instructor +:+ " " +:+ Instructor.bio instructor))
  instructors.

(** The loop that fills [course_scores] (and [instructor_scores]). *)
Definition scores (query_embedding : Embedding)
  (embeddings : list (string * Embedding)) : list (Q * string) :=
(λ item, (cosine_similarity query_embedding item.2, item.1)) <$> embeddings.

Definition course_scores (query : string) : list (Q * string) :=
scores (encode query) course_embeddings.

Definition instructor_scores (query : string) : list (Q * string) :=
scores (encode query) instructor_embeddings.

(** [[name for score, name in sorted(scores, reverse=True)[:3]]] *)
Definition relevant (scores : list (Q * string)) : list string :=
(take 3 (sorted_reverse tuple_ltb scores)).*2.

Definition retrieve_relevant_info (query : string)
  : list Course.t * list Instructor.t :=
let relevant_courses := relevant (course_scores query) in
let relevant_instructors := relevant (instructor_scores query) in
let matched_courses :=
  filter (λ course, Course.name course ∈ relevant_courses) courses in
let matched_instructors :=
  filter (λ instructor, Instructor.name instructor ∈ relevant_instructors)
    instructors in
(matched_courses, matched_instructors).

(** [retrieve_relevant_info(question)], as a step of a handler. *)
Definition retrieve (question : string)
  : M (list Course.t * list Instructor.t) :=
log (Retrieve question) ;;; ret (retrieve_relevant_info question).

(** [POST /api/query]; [uuid4] is what [str(uuid.uuid4())] would give. *)
Definition query_handler (generate_content : string → Generation)
  (uuid4 : string) (data : QueryRequest.t) : M Response :=
let question := strip (QueryRequest.query data) in
let conversation_id := py_or (QueryRequest.conversationId data) uuid4 in
if decide (question = "") then
  ret (JSON [("response", "Please enter a valid question.")])
else
  s <- get_session ;;
  (if conversations s is None then set_session_conversations ∅
   else ret ()) ;;;
  convs <- session_conversations ;;
  (if convs !! conversation_id is None
   then set_session_conversations
          (<[conversation_id := [system_message]]> convs)
   else ret ()) ;;;
  conversation_append conversation_id (user_message question) ;;;
  matched <- retrieve question ;;
  let context := format_context matched.1 matched.2 in
  history <- conversation conversation_id ;;
  let prompt := build_prompt_with_context question context history in
  response <-
    try_except
      (generated <- generate_text generate_content prompt ;;
       let response := strip generated in
       conversation_append conversation_id (assistant_message response) ;;;
       ret response)
      (λ e, ret ("I couldn't process that request. Please try again. (Error: "
                 +:+ e +:+ ")")) ;;
  ret (JSON [("response", response)]).

Definition query (generate_content : string → Generation)
  (uuid4 : string) (s : Session) (data : QueryRequest.t)
  : Response * State :=
endpoint (query_handler generate_content uuid4 data) s.

(** The prompt a request with a valid question sends to the model: the one
    the handler builds from the history it finds, the user message added. *)
Definition query_prompt (uuid4 : string) (s : Session)
  (data : QueryRequest.t) : string :=
let question := strip (QueryRequest.query data) in
let conversation_id := py_or (QueryRequest.conversationId data) uuid4 in
let matched := retrieve_relevant_info question in
build_prompt_with_context question (format_context matched.1 matched.2)
  (found_history s conversation_id ++ [user_message question]).

(** The closed form of [query] on a valid question: what the request returns
    and leaves behind, according to the fate of its call to the model. It is
    proved equal to the handler below. *)
Definition query_outcome (generate_content : string → Generation)
  (uuid4 : string) (s : Session) (data : QueryRequest.t)
  : Response * State :=
let question := strip (QueryRequest.query data) in
let conversation_id := py_or (QueryRequest.conversationId data) uuid4 in
let convs := default ∅ (conversations s) in
let history := found_history s conversation_id ++ [user_message question] in
let prompt := query_prompt uuid4 s data in
let done history response :=
  (JSON [("response", response)],
   {| session := {| conversations := Some (<[conversation_id := history]> convs);
                    translations := translations s |};
      steps := [Retrieve question; GenerateContent prompt] |}) in
match generate_content prompt with
| Text generated =>
    done (history ++ [assistant_message (strip generated)]) (strip generated)
| Raises e =>
    done history
      ("I couldn't process that request. Please try again. (Error: "
       +:+ e +:+ ")")
end.

End App.

(** ** Vocabulary of the specification *)

(** [name] has one of the three highest scores of [scores]: fewer than three
    of the scores are strictly higher than its own. *)
Definition top3_score (scores : list (Q * string)) (name : string) : Prop :=
  ∃ s, (s, name) ∈ scores ∧ length (filter (λ e, Qltb s e.1) scores) < 3.

(** The lines of the history, one after the other. *)
Definition join (lines : list string) : string := foldr String.append "" lines.

(** ** Concrete datasets *)

Module Toy.

(** A stand-in for the encoder and the similarity: a text is embedded as its
    length, and two embeddings are the more similar the closer they are. *)
Definition encode (text : string) : Z := Z.of_nat (String.length text).

Definition cosine_similarity (u v : Z) : Q := inject_Z (- Z.abs (u - v)).

Definition course (name description : string) : Course.t :=
{| Course.name := name; Course.description := description;
   Course.instructor := "Staff"; Course.duration := "4 weeks" |}.

(** Four courses whose texts have the same length: four equal scores. *)
Definition tied_courses : list Course.t :=
[course "A" "x"; course "B" "x"; course "C" "x"; course "D" "x"].

(** One course offered four times under the same name. *)
Definition same_name_courses : list Course.t :=
[course "Python" "spring"; course "Python" "summer";
 course "Python" "autumn"; course "Python" "winter"].

(** The texts grow with the position: for a short query the first course is
    the best match, for a long one the last. *)
Definition graded_courses : list Course.t :=
[course "A" "x"; course "B" "xx"; course "C" "xxx"; course "D" "xxxx"].

Definition instructors : list Instructor.t :=
[{| Instructor.name := "Ada"; Instructor.bio := "Teaches A." |}].

Definition empty_session : Session :=
{| conversations := None; translations := None |}.

Definition answers (text : string) : string → Generation := λ _, Text text.

Definition fails (e : string) : string → Generation := λ _, Raises e.

Definition query_with (generate_content : string → Generation)
  (uuid4 : string) (s : Session) (data : QueryRequest.t)
  : Response * State :=
query encode cosine_similarity graded_courses instructors generate_content
  uuid4 s data.

End Toy.

(** The tie-break as the specification words it: two tuples of the ranking with equal
    scores stand in the order in which the dataset lists them. *)
Definition ties_keep_insertion_order (scores ranking : list (Q * string))
  : Prop :=
∀ i j a b,
  ranking !! i = Some a → ranking !! j = Some b → i < j → (a.1 == b.1)%Q →
  ∃ i' j', scores !! i' = Some a ∧ scores !! j' = Some b ∧ i' < j'.

(** ** Invariants of the session *)

(** Every conversation of the session opens with the system message. *)
Definition opens_with_system (s : Session) : Prop :=
∀ cid history,
  conversations s ≫= (.!! cid) = Some history →
  head history = Some system_message.

(** Every message of the session has a content without surrounding
    whitespace, and no user message is empty. *)
Definition messages_stripped (s : Session) : Prop :=
∀ cid history msg,
  conversations s ≫= (.!! cid) = Some history →
  msg ∈ history →
  strip (content msg) = content msg ∧
  (role msg = "user" → content msg ≠ "").

(** Every translation record of the session has an original text that is
    not empty, and an original and a translation without surrounding
    whitespace. *)
Definition records_stripped (s : Session) : Prop :=
∀ cid records record,
  translations s ≫= (.!! cid) = Some records →
  record ∈ records →
  original record ≠ "" ∧
  strip (original record) = original record ∧
  strip (translation record) = translation record.


(** * Properties *)

(** ** Strings *)

Lemma string_ltb_leb (a b : string) : String.ltb a b = negb (String.leb b a).
Proof.
  unfold String.ltb, String.leb. rewrite (String.compare_antisym a b).
  by destruct (String.compare b a).
Qed.

Lemma string_ltb_lt (a b : string) :
  String.ltb a b = true ↔ String.le a b ∧ a ≠ b.
Proof.
  rewrite string_ltb_leb, negb_true_iff. unfold String.le. split.
  - intros Hba. split.
    + destruct (String.leb_total a b) as [H|H]; [by rewrite H | congruence].
    + intros ->. assert (String.le b b) as H by done.
      unfold String.le in H. by rewrite Hba in H.
  - intros [Hab Hne]. destruct (String.leb b a) eqn:Hba; [|done].
    destruct Hne. apply String.leb_antisym; [|done].
    by destruct (String.leb a b).
Qed.

Lemma string_ltb_false (a b : string) :
  String.ltb a b = false ↔ String.le b a.
Proof.
  rewrite string_ltb_leb, negb_false_iff. unfold String.le.
  by rewrite Is_true_true.
Qed.

(** ** The sort *)

Section SortedFacts.
Context {A : Type} (ltb : A → A → bool).

Abbreviation not_after := (not_after ltb).

Lemma insert_stable_Permutation x l : insert_stable ltb x l ≡ₚ x :: l.
Proof.
  induction l as [|y l IH]; simpl; [done|].
  destruct (ltb y x); [|done]. rewrite IH. apply Permutation_swap.
Qed.

Lemma sort_stable_Permutation l : sort_stable ltb l ≡ₚ l.
Proof.
  induction l as [|x l IH]; simpl; [done|].
  by rewrite insert_stable_Permutation, IH.
Qed.

Lemma sorted_reverse_Permutation l : sorted_reverse ltb l ≡ₚ l.
Proof.
  unfold sorted_reverse.
  by rewrite reverse_Permutation, sort_stable_Permutation, reverse_Permutation.
Qed.

Hypothesis ltb_asym : ∀ a b, ltb a b = true → ltb b a = false.
Hypothesis not_after_trans : ∀ a b c,
  not_after a b → not_after b c → not_after a c.

Lemma insert_stable_HdRel a x l :
  not_after a x → HdRel not_after a l → HdRel not_after a (insert_stable ltb x l).
Proof.
  intros Hax Hal. destruct l as [|y l]; simpl; [by constructor|].
  destruct (ltb y x); constructor; [|done]. by inversion Hal.
Qed.

Lemma insert_stable_Sorted x l :
  Sorted not_after l → Sorted not_after (insert_stable ltb x l).
Proof.
  induction l as [|y l IH]; simpl; intros Hl.
  - by repeat constructor.
  - inversion_clear Hl as [|?? Hl' Hhd]. destruct (ltb y x) eqn:Hyx.
    + constructor; [by apply IH|].
      apply insert_stable_HdRel; [|done]. by apply ltb_asym.
    + repeat constructor; done.
Qed.

Lemma sort_stable_Sorted l : Sorted not_after (sort_stable ltb l).
Proof.
  induction l as [|x l IH]; simpl; [constructor|].
  by apply insert_stable_Sorted.
Qed.

(** The ranking is descending: nothing stands before a greater element. *)
Lemma sorted_reverse_StronglySorted l :
  StronglySorted (flip not_after) (sorted_reverse ltb l).
Proof.
  apply Sorted_StronglySorted.
  - intros a b c Hab Hbc. unfold flip in *. by eapply not_after_trans.
  - apply Sorted_reverse, sort_stable_Sorted.
Qed.

Lemma sorted_reverse_take_drop l n x y :
  x ∈ take n (sorted_reverse ltb l) → y ∈ drop n (sorted_reverse ltb l) →
  ltb x y = false.
Proof.
  intros Hx Hy. pose proof (sorted_reverse_StronglySorted l) as Hs.
  rewrite <-(take_drop n (sorted_reverse ltb l)) in Hs.
  by apply (StronglySorted_app_1_elem_of _ _ _ x y) in Hs.
Qed.

Lemma sorted_reverse_lookup l i j x y :
  sorted_reverse ltb l !! i = Some x → sorted_reverse ltb l !! j = Some y →
  i < j → ltb x y = false.
Proof.
  intros Hi Hj Hij.
  apply (sorted_reverse_take_drop l (S i)).
  - apply list_elem_of_lookup. exists i. rewrite lookup_take_lt; [done|lia].
  - apply list_elem_of_lookup. exists (j - S i).
    rewrite lookup_drop. by replace (S i + (j - S i)) with j by lia.
Qed.

End SortedFacts.

(** ** The order on the tuples [(similarity, name)] *)

Lemma Qltb_lt (x y : Q) : Qltb x y = true ↔ (x < y)%Q.
Proof.
  unfold Qltb. rewrite Qlt_alt. by destruct (x ?= y)%Q.
Qed.

Lemma Qlt_eq_l (x y z : Q) : (x == y)%Q → (x < z)%Q → (y < z)%Q.
Proof. intros H. by apply (Qlt_compat x y H z z (Qeq_refl z)). Qed.

Lemma Qlt_eq_r (x y z : Q) : (x == y)%Q → (z < x)%Q → (z < y)%Q.
Proof. intros H. by apply (Qlt_compat z z (Qeq_refl z) x y H). Qed.

Lemma tuple_ltb_true (a b : Q * string) :
  tuple_ltb a b = true ↔
  (a.1 < b.1)%Q ∨ (a.1 == b.1)%Q ∧ String.ltb a.2 b.2 = true.
Proof.
  unfold tuple_ltb. destruct (Qeq_bool a.1 b.1) eqn:Heq.
  - apply Qeq_bool_iff in Heq. split; [by right|].
    intros [Hlt|[_ ?]]; [|done]. apply (Qlt_eq_l _ _ _ Heq) in Hlt.
    by apply Qlt_irrefl in Hlt.
  - rewrite Qltb_lt. split; [by left|]. intros [?|[Heq' _]]; [done|].
    apply Qeq_bool_iff in Heq'. congruence.
Qed.

Lemma tuple_ltb_false (a b : Q * string) :
  tuple_ltb a b = false ↔
  (b.1 < a.1)%Q ∨ (a.1 == b.1)%Q ∧ String.le b.2 a.2.
Proof.
  rewrite <-not_true_iff_false, tuple_ltb_true. split.
  - intros Hn. destruct (Q_dec a.1 b.1) as [[Hlt|Hgt]|Heq].
    + destruct Hn. by left.
    + by left.
    + right. split; [done|]. apply string_ltb_false.
      destruct (String.ltb a.2 b.2) eqn:Hs; [|done]. destruct Hn. by right.
  - intros [Hgt|[Heq Hle]] [Hlt|[Heq' Hlt]].
    + by apply (Qlt_irrefl a.1), (Qlt_trans _ b.1).
    + apply (Qlt_eq_r _ _ _ Heq') in Hgt. by apply Qlt_irrefl in Hgt.
    + apply (Qlt_eq_l _ _ _ Heq) in Hlt. by apply Qlt_irrefl in Hlt.
    + apply string_ltb_false in Hle. congruence.
Qed.

Lemma tuple_ltb_asym (a b : Q * string) :
  tuple_ltb a b = true → tuple_ltb b a = false.
Proof.
  rewrite tuple_ltb_true, tuple_ltb_false. intros [Hlt|[Heq Hlt]]; [by left|].
  right. split; [by symmetry|]. by apply string_ltb_lt in Hlt as [? _].
Qed.

Lemma tuple_not_after_trans (a b c : Q * string) :
  not_after tuple_ltb a b → not_after tuple_ltb b c → not_after tuple_ltb a c.
Proof.
  unfold not_after. rewrite !tuple_ltb_false.
  intros [Hab|[Hab Hab']] [Hbc|[Hbc Hbc']].
  - left. by apply (Qlt_trans _ b.1).
  - left. by apply (Qlt_eq_r b.1); [apply Qeq_sym|].
  - left. by apply (Qlt_eq_l b.1).
  - right. split; [by apply (Qeq_trans _ b.1)|]. by trans b.2.
Qed.

(** A tuple of the ranking that stands before another one has a score at
    least as high, and on equal scores a name at least as high. *)
Lemma ranking_lookup (l : list (Q * string)) i j a b :
  sorted_reverse tuple_ltb l !! i = Some a →
  sorted_reverse tuple_ltb l !! j = Some b →
  i < j →
  (b.1 < a.1)%Q ∨ (a.1 == b.1)%Q ∧ String.le b.2 a.2.
Proof.
  intros Hi Hj Hij. apply tuple_ltb_false.
  eapply sorted_reverse_lookup;
    eauto using tuple_ltb_asym, tuple_not_after_trans.
Qed.

(** Whatever the sorting algorithm, there is one descending arrangement of
    tuples of distinct names: the stable insertion sort of the model returns
    what any correct [sorted] does. *)
Lemma ranking_unique (l ranking : list (Q * string)) :
  NoDup l.*2 →
  ranking ≡ₚ l →
  StronglySorted (flip (not_after tuple_ltb)) ranking →
  ranking = sorted_reverse tuple_ltb l.
Proof.
  intros Hnodup Hperm Hsorted.
  apply (StronglySorted_unique_strong (flip (not_after tuple_ltb)));
    [|exact Hsorted| |].
  - intros x y Hx Hy Hxy Hyx. unfold flip, not_after in *.
    apply tuple_ltb_false in Hxy as [Hlt|[Heq Hle]];
      apply tuple_ltb_false in Hyx as [Hlt'|[Heq' Hle']].
    + destruct (Qlt_irrefl x.1). by apply (Qlt_trans _ y.1).
    + apply (Qlt_eq_l _ _ _ Heq') in Hlt. by apply Qlt_irrefl in Hlt.
    + apply (Qlt_eq_l _ _ _ Heq) in Hlt'. by apply Qlt_irrefl in Hlt'.
    + assert (x.2 = y.2) as Hname by (by apply (anti_symm String.le)).
      rewrite <-Hperm in Hnodup.
      rewrite sorted_reverse_Permutation, <-Hperm in Hy.
      apply list_elem_of_lookup in Hx as [i Hi].
      apply list_elem_of_lookup in Hy as [j Hj].
      assert (i = j) as Hij.
      { apply (NoDup_lookup _ i j x.2 Hnodup);
          rewrite list_lookup_fmap; [rewrite Hi | rewrite Hj]; simpl;
          congruence. }
      rewrite Hij, Hj in Hi. injection Hi as Hyx. by symmetry.
  - apply sorted_reverse_StronglySorted;
      [apply tuple_ltb_asym|apply tuple_not_after_trans].
  - by rewrite sorted_reverse_Permutation.
Qed.

(** ** The dictionary of embeddings *)

Lemma setitem_keys {V} k (v : V) d :
  PyDict.keys (PyDict.setitem k v d) =
  if decide (k ∈ PyDict.keys d) then PyDict.keys d else PyDict.keys d ++ [k].
Proof.
  unfold PyDict.keys. induction d as [|[k' v'] d IH]; csimpl; [done|].
  destruct (String.eqb_spec k' k) as [->|Hne]; csimpl.
  - rewrite decide_True; [done|]. apply list_elem_of_here.
  - rewrite IH. destruct (decide (k ∈ d.*1)) as [Hin|Hin].
    + rewrite decide_True; [done|]. by apply list_elem_of_further.
    + rewrite decide_False; [done|]. rewrite elem_of_cons. intros [->|?]; tauto.
Qed.

Lemma setitem_keys_NoDup {V} k (v : V) d :
  NoDup (PyDict.keys d) → NoDup (PyDict.keys (PyDict.setitem k v d)).
Proof.
  intros Hd. rewrite setitem_keys. case_decide; [done|].
  apply NoDup_app. split_and!; [done| |apply NoDup_singleton].
  intros x Hx ->%list_elem_of_singleton. done.
Qed.

Lemma comprehension_keys_NoDup {R V} (key : R → string) (value : R → V) rs :
  NoDup (PyDict.keys (PyDict.comprehension key value rs)).
Proof.
  unfold PyDict.comprehension.
  assert (NoDup (PyDict.keys (@nil (string * V)))) as H by constructor.
  revert H. generalize (@nil (string * V)).
  induction rs as [|r rs IH]; intros d Hd; simpl; [done|].
  by apply IH, setitem_keys_NoDup.
Qed.

(** Every record has its name among the keys, and every key is the name of a
    record. *)
Lemma comprehension_keys {R V} (key : R → string) (value : R → V) rs k :
  k ∈ PyDict.keys (PyDict.comprehension key value rs) ↔ k ∈ key <$> rs.
Proof.
  unfold PyDict.comprehension.
  assert (∀ d, k ∈ PyDict.keys
                 (foldl (λ d r, PyDict.setitem (key r) (value r) d) d rs) ↔
               k ∈ PyDict.keys d ∨ k ∈ key <$> rs) as H.
  { induction rs as [|r rs IH]; intros d; simpl.
    - rewrite elem_of_nil. tauto.
    - rewrite IH, setitem_keys, elem_of_cons. case_decide.
      + intuition congruence.
      + rewrite elem_of_app, list_elem_of_singleton. intuition congruence. }
  rewrite H. unfold PyDict.keys. simpl. rewrite elem_of_nil. tauto.
Qed.

(** ** Retrieval *)

Lemma filter_none {A} (P : A → Prop) `{!∀ x, Decision (P x)} (l : list A) :
  (∀ x, x ∈ l → ¬ P x) → filter P l = [].
Proof.
  induction l as [|x l IH]; intros Hl; [done|].
  rewrite filter_cons_False by (apply Hl, list_elem_of_here).
  apply IH. intros y Hy. by apply Hl, list_elem_of_further.
Qed.

(** The names of as many records as fit: at most as many records as names
    when the records have distinct names, at most as many distinct names in
    any case. *)
Lemma matched_length {R} (name : R → string) (names : list string)
    (records : list R) :
  let matched := filter (λ r, name r ∈ names) records in
  length (remove_dups (name <$> matched)) ≤ length names ∧
  (NoDup (name <$> records) → length matched ≤ length names).
Proof.
  intros matched.
  assert (∀ n, n ∈ name <$> matched → n ∈ remove_dups names) as Hin.
  { intros n (r & -> & Hr)%list_elem_of_fmap.
    apply list_elem_of_filter in Hr as [Hr _]. by apply elem_of_remove_dups. }
  assert (length (remove_dups names) ≤ length names) as Hnames.
  { apply submseteq_length, NoDup_submseteq; [apply NoDup_remove_dups|].
    intros n. by rewrite elem_of_remove_dups. }
  split.
  - etrans; [|exact Hnames]. apply submseteq_length, NoDup_submseteq.
    + apply NoDup_remove_dups.
    + intros n Hn. by apply Hin, elem_of_remove_dups.
  - intros Hnodup. rewrite <-(length_fmap name matched).
    etrans; [|exact Hnames].
    apply submseteq_length, NoDup_submseteq; [|exact Hin].
    eapply sublist_NoDup; [exact Hnodup|apply fmap_sublist, sublist_filter].
Qed.

Lemma relevant_length scores : length (relevant scores) ≤ 3.
Proof. unfold relevant. rewrite length_fmap, length_take. lia. Qed.

Lemma relevant_top3_score scores name :
  name ∈ relevant scores → top3_score scores name.
Proof.
  unfold relevant. intros ([s n] & -> & Hx)%list_elem_of_fmap. simpl.
  set (ranking := sorted_reverse tuple_ltb scores) in *.
  assert (ranking ≡ₚ scores) as Hperm by apply sorted_reverse_Permutation.
  exists s. split.
  { rewrite <-Hperm. by eapply subseteq_take. }
  rewrite <-Hperm, <-(take_drop 3 ranking), filter_app, length_app.
  rewrite (filter_none _ (drop 3 ranking)), Nat.add_0_r.
  - eapply Nat.lt_le_trans.
    + apply (length_filter_lt _ _ (s, n)); [done|]. simpl.
      rewrite Is_true_true, Qltb_lt. apply Qlt_irrefl.
    + rewrite length_take. lia.
  - intros e He. rewrite Is_true_true, Qltb_lt. intros Hlt.
    pose proof (sorted_reverse_take_drop tuple_ltb tuple_ltb_asym
      tuple_not_after_trans scores 3 (s, n) e Hx He) as Hfalse.
    assert (tuple_ltb (s, n) e = true) as Htrue; [|congruence].
    apply tuple_ltb_true. by left.
Qed.

Section Retrieval.
Context {Embedding : Type}.
Context (encode : string → Embedding).
Context (cosine_similarity : Embedding → Embedding → Q).
Context (courses : list Course.t) (instructors : list Instructor.t).

Lemma scores_names query_embedding (embeddings : list (string * Embedding)) :
  (scores cosine_similarity query_embedding embeddings).*2
  = PyDict.keys embeddings.
Proof.
  unfold scores, PyDict.keys. rewrite <-list_fmap_compose.
  by apply list_fmap_ext.
Qed.

(** The names that are scored are distinct: they are the keys of a
    dictionary. *)
Lemma course_scores_NoDup query :
  NoDup (course_scores encode cosine_similarity courses query).*2.
Proof.
  unfold course_scores. rewrite scores_names.
  apply comprehension_keys_NoDup.
Qed.

Lemma instructor_scores_NoDup query :
  NoDup (instructor_scores encode cosine_similarity instructors query).*2.
Proof.
  unfold instructor_scores. rewrite scores_names.
  apply comprehension_keys_NoDup.
Qed.

Abbreviation retrieve_relevant_info :=
  (retrieve_relevant_info encode cosine_similarity courses instructors).
Abbreviation course_scores :=
  (course_scores encode cosine_similarity courses).
Abbreviation instructor_scores :=
  (instructor_scores encode cosine_similarity instructors).

(** C1, as amended. Retrieval returns records of at most 3 distinct course
    names and of at most 3 distinct instructor names, hence at most 3 course
    records and at most 3 instructor records when the names of the dataset
    are pairwise distinct; and the name of every returned record has one of
    the top-3 cosine-similarity scores between the query embedding and the
    precomputed embeddings. *)
Theorem retrieve_relevant_info_top3 (query : string) :
  let matched := retrieve_relevant_info query in
  (NoDup (Course.name <$> courses) → length matched.1 ≤ 3) ∧
  (NoDup (Instructor.name <$> instructors) → length matched.2 ≤ 3) ∧
  length (remove_dups (Course.name <$> matched.1)) ≤ 3 ∧
  length (remove_dups (Instructor.name <$> matched.2)) ≤ 3 ∧
  (∀ course, course ∈ matched.1 →
     top3_score (course_scores query) (Course.name course)) ∧
  (∀ instructor, instructor ∈ matched.2 →
     top3_score (instructor_scores query) (Instructor.name instructor)).
Proof.
  simpl.
  pose proof (relevant_length (course_scores query)) as Hc.
  pose proof (relevant_length (instructor_scores query)) as Hi.
  destruct (matched_length Course.name (relevant (course_scores query))
              courses) as [Hc1 Hc2].
  destruct (matched_length Instructor.name
              (relevant (instructor_scores query)) instructors) as [Hi1 Hi2].
  split_and!.
  - intros Hnodup. specialize (Hc2 Hnodup). lia.
  - intros Hnodup. specialize (Hi2 Hnodup). lia.
  - lia.
  - lia.
  - intros course [Hin _]%list_elem_of_filter. by apply relevant_top3_score.
  - intros instructor [Hin _]%list_elem_of_filter.
    by apply relevant_top3_score.
Qed.

(** C5, as amended. When records have equal cosine-similarity scores against
    the query, the sorted ranking orders the tied records by name, the
    greater name first (the sort compares the tuples of score and name),
    whatever their insertion order in the dataset. *)
Theorem ranking_ties_by_name (query : string) (scores : list (Q * string))
    (i j : nat) (a b : Q * string) :
  scores = course_scores query ∨ scores = instructor_scores query →
  sorted_reverse tuple_ltb scores !! i = Some a →
  sorted_reverse tuple_ltb scores !! j = Some b →
  i < j →
  (a.1 == b.1)%Q →
  String.ltb b.2 a.2 = true.
Proof.
  intros Hscores Hi Hj Hij Htie.
  assert (NoDup (sorted_reverse tuple_ltb scores).*2) as Hnodup.
  { rewrite sorted_reverse_Permutation.
    destruct Hscores as [-> | ->];
      [apply course_scores_NoDup | apply instructor_scores_NoDup]. }
  apply string_ltb_lt. split.
  - destruct (ranking_lookup scores i j a b Hi Hj Hij) as [Hlt|[_ Hle]];
      [|done].
    apply (Qlt_eq_l _ _ _ (Qeq_sym _ _ Htie)) in Hlt.
    by apply Qlt_irrefl in Hlt.
  - intros Heq.
    assert (i = j); [|lia].
    apply (NoDup_lookup _ i j b.2 Hnodup);
      rewrite list_lookup_fmap; [rewrite Hi | rewrite Hj]; simpl; congruence.
Qed.

(** C9. The matched courses and the matched instructors come in the order of
    the dataset: each list is a subsequence of its dataset, and it is the
    same whatever the order in which the ranking lists the relevant names. *)
Theorem retrieve_relevant_info_dataset_order (query : string) :
  let matched := retrieve_relevant_info query in
  matched.1 `sublist_of` courses ∧
  matched.2 `sublist_of` instructors ∧
  (∀ names, names ≡ₚ relevant (course_scores query) →
     matched.1 = filter (λ course, Course.name course ∈ names) courses) ∧
  (∀ names, names ≡ₚ relevant (instructor_scores query) →
     matched.2 =
       filter (λ instructor, Instructor.name instructor ∈ names) instructors).
Proof.
  simpl. split_and!; try apply sublist_filter.
  - intros names Hperm. apply list_filter_iff. intros c. by rewrite Hperm.
  - intros names Hperm. apply list_filter_iff. intros c. by rewrite Hperm.
Qed.

End Retrieval.

(** ** Strings, continued *)

Lemma string_app_nil_r (s : string) : s +:+ "" = s.
Proof.
  induction s as [|c s IH]; [done|].
  change (String c (s +:+ "") = String c s). by rewrite IH.
Qed.

Lemma string_app_assoc (s t u : string) : (s +:+ t) +:+ u = s +:+ t +:+ u.
Proof.
  induction s as [|c s IH]; [done|].
  change (String c ((s +:+ t) +:+ u) = String c (s +:+ t +:+ u)).
  by rewrite IH.
Qed.

(** ** Stripping *)

Lemma lstrip_whitespace_only (s : string) : whitespace_only s → lstrip s = "".
Proof.
  induction s as [|c s IH]; simpl; [done|]. intros [-> Hs]. by apply IH.
Qed.

Lemma strip_whitespace_only (s : string) : whitespace_only s → strip s = "".
Proof. intros Hs. unfold strip. by rewrite lstrip_whitespace_only. Qed.

(** ** The query endpoint *)

(** One step of a handler on a state whose session has what the step
    reads. *)
Lemma conversation_append_run cid msg st convs history :
  conversations (session st) = Some convs →
  convs !! cid = Some history →
  conversation_append cid msg st
  = (inr (),
     {| session :=
          {| conversations := Some (<[cid := history ++ [msg]]> convs);
             translations := translations (session st) |};
        steps := steps st |}).
Proof.
  intros Hconvs Hcid.
  unfold conversation_append, session_conversations, bind, get_session.
  rewrite Hconvs. simpl. by rewrite Hcid.
Qed.

Lemma conversation_run cid st convs history :
  conversations (session st) = Some convs →
  convs !! cid = Some history →
  conversation cid st = (inr history, st).
Proof.
  intros Hconvs Hcid.
  unfold conversation, session_conversations, bind, get_session.
  rewrite Hconvs. simpl. by rewrite Hcid.
Qed.

Section Query.
Context {Embedding : Type}.
Context (encode : string → Embedding).
Context (cosine_similarity : Embedding → Embedding → Q).
Context (courses : list Course.t) (instructors : list Instructor.t).

Lemma query_valid_question generate_content uuid4 s data :
  strip (QueryRequest.query data) ≠ "" →
  query encode cosine_similarity courses instructors generate_content uuid4
    s data
  = query_outcome encode cosine_similarity courses instructors
      generate_content uuid4 s data.
Proof.
  intros Hq. unfold query, query_outcome, query_prompt, endpoint, query_handler.
  rewrite decide_False by done.
  set (question := strip (QueryRequest.query data)).
  set (cid := py_or (QueryRequest.conversationId data) uuid4).
  destruct s as [convs trs]. unfold found_history, bind at 1 2 3 4. simpl.
  set (convs0 := default ∅ convs).
  set (history := default [system_message] (convs ≫= (.!! cid))).
  set (prompt := build_prompt_with_context _ _ _).
  assert (((if convs is None then set_session_conversations ∅ else ret ())
             {| session := {| conversations := convs; translations := trs |};
                steps := [] |})
          = (inr (), {| session := {| conversations := Some convs0;
                                      translations := trs |};
                        steps := [] |})) as ->.
  { by destruct convs. }
  unfold session_conversations at 1. unfold bind at 1 2 3, get_session. simpl.
  assert (((if convs0 !! cid is Some _ then ret ()
            else set_session_conversations (<[cid:=[system_message]]> convs0))
             {| session := {| conversations := Some convs0;
                              translations := trs |};
                steps := [] |})
          = (inr (), {| session :=
                          {| conversations := Some (<[cid:=history]> convs0);
                             translations := trs |};
                        steps := [] |})) as ->.
  { subst convs0 history. destruct convs as [m|]; simpl.
    - destruct (m !! cid) eqn:Hcid; simpl; [|done].
      by rewrite insert_id.
    - by rewrite lookup_empty. }
  erewrite conversation_append_run;
    [|reflexivity|apply lookup_insert_eq].
  rewrite insert_insert_eq. simpl. unfold bind at 1.
  erewrite conversation_run; [|reflexivity|apply lookup_insert_eq].
  fold prompt. unfold bind, try_except, generate_text, bind, log. simpl.
  destruct (generate_content prompt) as [e|generated]; simpl; [done|].
  erewrite conversation_append_run; [|reflexivity|apply lookup_insert_eq].
  by rewrite insert_insert_eq.
Qed.

Lemma query_no_question generate_content uuid4 s data :
  strip (QueryRequest.query data) = "" →
  query encode cosine_similarity courses instructors generate_content uuid4
    s data
  = (JSON [("response", "Please enter a valid question.")],
     {| session := s; steps := [] |}).
Proof. intros Hq. unfold query, endpoint, query_handler. by rewrite Hq. Qed.

Abbreviation query_endpoint :=
  (query encode cosine_similarity courses instructors).
Abbreviation query_prompt :=
  (query_prompt encode cosine_similarity courses instructors).

(** C4. A request whose query is empty or made of whitespace only is
    answered with exactly [{"response": "Please enter a valid question."}];
    neither the retrieval nor the generative model is invoked, and the
    session, with every conversation history in it, is left as it was. *)
Theorem query_blank_question generate_content uuid4 s data :
  whitespace_only (QueryRequest.query data) →
  query_endpoint generate_content uuid4 s data
  = (JSON [("response", "Please enter a valid question.")],
     {| session := s; steps := [] |}).
Proof. intros Hblank. by apply query_no_question, strip_whitespace_only. Qed.

(** C2. When the call to the generative model raises, [/api/query] still
    returns a JSON body (no error status) whose response string carries the
    error indicator with the text of the exception (the call that raised
    being the one call the handler made, after the retrieval), and the
    history of the conversation is the one the request found followed by the
    user message only: no assistant message is appended, and no other
    conversation is touched. *)
Theorem query_generation_fails generate_content uuid4 s data e :
  let question := strip (QueryRequest.query data) in
  let conversation_id := py_or (QueryRequest.conversationId data) uuid4 in
  let result := query_endpoint generate_content uuid4 s data in
  question ≠ "" →
  generate_content (query_prompt uuid4 s data) = Raises e →
  steps result.2
    = [Retrieve question; GenerateContent (query_prompt uuid4 s data)] ∧
  (∃ response, result.1 = JSON [("response", response)] ∧
     contains response ("(Error: " +:+ e +:+ ")")) ∧
  (∃ convs, conversations (session result.2) = Some convs ∧
     convs !! conversation_id
       = Some (found_history s conversation_id ++ [user_message question]) ∧
     ∀ other, other ≠ conversation_id →
       convs !! other = conversations s ≫= (.!! other)).
Proof.
  intros question conversation_id result Hq Hgen. subst result.
  rewrite query_valid_question by done. unfold query_outcome.
  rewrite Hgen. simpl. split; [done|]. split.
  - eexists. split; [done|].
    exists "I couldn't process that request. Please try again. ", "".
    by rewrite string_app_nil_r, <-string_app_assoc.
  - eexists. split; [done|]. split; [apply lookup_insert_eq|].
    intros other Hother. rewrite lookup_insert_ne by done.
    destruct (conversations s); [done|apply lookup_empty].
Qed.

(** C3, as amended. Two calls of [/api/query] with the same non-empty
    conversationId, both with a valid question and a successful generation,
    leave under that identifier the history the first call found followed
    by, in order, the first user question, the first assistant response, the
    second user question and the second assistant response; for an
    identifier new to the session, the history found is the initial system
    message alone. *)
Theorem query_twice_history gen1 gen2 uuid1 uuid2 s cid q1 q2 t1 t2 :
  let data1 :=
    {| QueryRequest.query := q1; QueryRequest.conversationId := Some cid |} in
  let data2 :=
    {| QueryRequest.query := q2; QueryRequest.conversationId := Some cid |} in
  let first := query_endpoint gen1 uuid1 s data1 in
  let second := query_endpoint gen2 uuid2 (session first.2) data2 in
  let exchanges :=
    [user_message (strip q1); assistant_message (strip t1);
     user_message (strip q2); assistant_message (strip t2)] in
  cid ≠ "" →
  strip q1 ≠ "" →
  strip q2 ≠ "" →
  gen1 (query_prompt uuid1 s data1) = Text t1 →
  gen2 (query_prompt uuid2 (session first.2) data2) = Text t2 →
  first.1 = JSON [("response", strip t1)] ∧
  second.1 = JSON [("response", strip t2)] ∧
  conversations (session second.2) ≫= (.!! cid)
    = Some (found_history s cid ++ exchanges) ∧
  (conversations s ≫= (.!! cid) = None →
   conversations (session second.2) ≫= (.!! cid)
     = Some (system_message :: exchanges)).
Proof.
  intros data1 data2 first second exchanges Hcid Hq1 Hq2 Hgen1 Hgen2.
  assert (String.eqb cid "" = false) as Hid.
  { by destruct (String.eqb_spec cid ""). }
  pose (convs1 := <[cid := (found_history s cid ++ [user_message (strip q1)])
                           ++ [assistant_message (strip t1)]]>
                    (default ∅ (conversations s))).
  pose (s1 := {| conversations := Some convs1;
                 translations := translations s |}).
  assert (first.1 = JSON [("response", strip t1)] ∧ session first.2 = s1)
    as [Hfirst Hs1].
  { subst first. rewrite query_valid_question by done.
    unfold query_outcome. rewrite Hgen1. simpl. split; [done|].
    unfold s1, convs1. by rewrite Hid. }
  subst second. clearbody first. rewrite Hs1 in *. clear Hs1.
  set (second := query_endpoint gen2 uuid2 s1 data2).
  assert (found_history s1 cid
          = (found_history s cid ++ [user_message (strip q1)])
            ++ [assistant_message (strip t1)]) as Hfound.
  { unfold found_history at 1, s1, convs1. simpl.
    by rewrite lookup_insert_eq. }
  assert (second.1 = JSON [("response", strip t2)] ∧
          conversations (session second.2) ≫= (.!! cid)
          = Some (found_history s cid ++ exchanges)) as [Hsecond Hfinal].
  { subst second. rewrite query_valid_question by done.
    unfold query_outcome. rewrite Hgen2. simpl. split; [done|].
    rewrite Hid, lookup_insert_eq, Hfound. simpl. by rewrite <-!app_assoc. }
  split_and!; [done|done|done|].
  intros Hnew. rewrite Hfinal. unfold found_history. by rewrite Hnew.
Qed.

End Query.

(** ** The translation endpoint *)

Lemma translations_append_run cid record st trs records :
  translations (session st) = Some trs →
  trs !! cid = Some records →
  translations_append cid record st
  = (inr (),
     {| session :=
          {| conversations := conversations (session st);
             translations := Some (<[cid := records ++ [record]]> trs) |};
        steps := steps st |}).
Proof.
  intros Htrs Hcid.
  unfold translations_append, session_translations, bind, get_session.
  rewrite Htrs. simpl. by rewrite Hcid.
Qed.

Lemma translate_some_text generate_content uuid4 s data :
  strip (TranslateRequest.text data) ≠ "" →
  translate generate_content uuid4 s data
  = translate_outcome generate_content uuid4 s data.
Proof.
  intros Htext.
  unfold translate, translate_outcome, endpoint, translate_handler.
  rewrite decide_False by done.
  set (text := strip (TranslateRequest.text data)).
  set (cid := py_or (TranslateRequest.conversationId data) uuid4).
  set (prompt := translation_prompt _ _).
  unfold try_except, bind at 1, generate_text, bind at 1, log. simpl.
  destruct (generate_content prompt) as [e|generated]; simpl; [done|].
  destruct s as [convs trs]. unfold bind at 1 2, get_session. simpl.
  set (trs0 := default ∅ trs).
  set (records := default [] (trs ≫= (.!! cid))).
  assert (((if trs is None then set_session_translations ∅ else ret ())
             {| session := {| conversations := convs; translations := trs |};
                steps := [GenerateContent prompt] |})
          = (inr (), {| session := {| conversations := convs;
                                      translations := Some trs0 |};
                        steps := [GenerateContent prompt] |})) as ->.
  { by destruct trs. }
  unfold session_translations at 1. unfold bind at 1 2 3, get_session. simpl.
  assert (((if trs0 !! cid is Some _ then ret ()
            else set_session_translations (<[cid:=[]]> trs0))
             {| session := {| conversations := convs;
                              translations := Some trs0 |};
                steps := [GenerateContent prompt] |})
          = (inr (), {| session :=
                          {| conversations := convs;
                             translations := Some (<[cid:=records]> trs0) |};
                        steps := [GenerateContent prompt] |})) as ->.
  { subst trs0 records. destruct trs as [m|]; simpl.
    - destruct (m !! cid) eqn:Hcid; simpl; [|done].
      by rewrite insert_id.
    - by rewrite lookup_empty. }
  unfold bind.
  erewrite translations_append_run; [|reflexivity|apply lookup_insert_eq].
  by rewrite insert_insert_eq.
Qed.

Lemma translate_no_text generate_content uuid4 s data :
  strip (TranslateRequest.text data) = "" →
  translate generate_content uuid4 s data
  = (JSON [("translation", "No text to translate")],
     {| session := s; steps := [] |}).
Proof.
  intros Htext. unfold translate, endpoint, translate_handler.
  by rewrite Htext.
Qed.

(** C7. A request whose text is empty or made of whitespace only is answered
    with exactly [{"translation": "No text to translate"}], and the
    generative model is not invoked. *)
Theorem translate_blank_text generate_content uuid4 s data :
  whitespace_only (TranslateRequest.text data) →
  translate generate_content uuid4 s data
  = (JSON [("translation", "No text to translate")],
     {| session := s; steps := [] |}).
Proof. intros Hblank. by apply translate_no_text, strip_whitespace_only. Qed.

(** C8. When there is a text to translate and the call to the generative
    model raises, [/api/translate] returns a JSON body (no error status)
    whose translation field is the failure message with the text of the
    exception. *)
Theorem translate_generation_fails generate_content uuid4 s data e :
  let text := strip (TranslateRequest.text data) in
  let prompt :=
    translation_prompt (TranslateRequest.target_lang data) text in
  text ≠ "" →
  generate_content prompt = Raises e →
  (translate generate_content uuid4 s data).1
    = JSON [("translation", "Translation failed: " +:+ e)] ∧
  contains ("Translation failed: " +:+ e) e ∧
  steps (translate generate_content uuid4 s data).2
    = [GenerateContent prompt].
Proof.
  intros text prompt Htext Hgen.
  rewrite translate_some_text by done. unfold translate_outcome.
  fold text prompt. rewrite Hgen. split_and!; [done| |done].
  exists "Translation failed: ", "". by rewrite string_app_nil_r.
Qed.

(** C10. A translation record (original text, translation, target language)
    is appended to the list of the conversation when the call to the
    generative model succeeds, and only then: when the call raises, the
    session is left exactly as it was, and a session that changed tells of a
    text to translate and of a successful call. *)
Theorem translate_records_on_success_only generate_content uuid4 s data :
  let text := strip (TranslateRequest.text data) in
  let target_lang := TranslateRequest.target_lang data in
  let conversation_id := py_or (TranslateRequest.conversationId data) uuid4 in
  let prompt := translation_prompt target_lang text in
  let result := translate generate_content uuid4 s data in
  (∀ e, generate_content prompt = Raises e → session result.2 = s) ∧
  (∀ generated, text ≠ "" → generate_content prompt = Text generated →
     conversations (session result.2) = conversations s ∧
     ∃ trs, translations (session result.2) = Some trs ∧
       trs !! conversation_id
         = Some (default [] (translations s ≫= (.!! conversation_id))
                 ++ [{| original := text; translation := strip generated;
                        language := target_lang |}]) ∧
       ∀ other, other ≠ conversation_id →
         trs !! other = translations s ≫= (.!! other)) ∧
  (session result.2 ≠ s →
     text ≠ "" ∧ ∃ generated, generate_content prompt = Text generated).
Proof.
  intros text target_lang conversation_id prompt result.
  assert (text = "" → session result.2 = s) as Hblank.
  { intros Htext. subst result. by rewrite translate_no_text. }
  assert (∀ e, generate_content prompt = Raises e → session result.2 = s)
    as Hraises.
  { intros e Hgen. destruct (decide (text = "")) as [|Htext]; [by auto|].
    subst result. rewrite translate_some_text by done.
    unfold translate_outcome. fold text target_lang prompt.
    by rewrite Hgen. }
  split_and!; [done| |].
  - intros generated Htext Hgen. subst result.
    rewrite translate_some_text by done.
    unfold translate_outcome. fold text target_lang prompt conversation_id.
    rewrite Hgen. simpl. split; [done|]. eexists. split; [done|].
    split; [apply lookup_insert_eq|]. intros other Hother.
    rewrite lookup_insert_ne by done.
    destruct (translations s); [done|apply lookup_empty].
  - intros Hchanged. split; [by intros ?%Hblank|].
    destruct (generate_content prompt) as [e|generated] eqn:Hgen; [|by eauto].
    destruct Hchanged. by apply (Hraises e).
Qed.

(** ** The prompt *)

Lemma foldl_history_lines (prompt : string) (history : list Message) :
  foldl (λ prompt msg, prompt +:+ history_line msg) prompt history
  = prompt +:+ join (history_line <$> history).
Proof.
  revert prompt. induction history as [|msg history IH]; intros prompt; simpl.
  - by rewrite string_app_nil_r.
  - by rewrite IH, string_app_assoc.
Qed.

(** C6. The prompt is one string: the header that holds the context block,
    then the messages of the history but the first, each as a line
    [role: content], in the order of the history, then the footer that holds
    the current question. The first message of the history has no part in
    it: another first message gives the same prompt. *)
Theorem build_prompt_with_context_layout question context history :
  build_prompt_with_context question context history
  = prompt_header context
    +:+ join ((λ msg, role msg +:+ ": " +:+ content msg +:+ LF)
                <$> drop 1 history)
    +:+ prompt_footer question ∧
  contains (prompt_header context) context ∧
  contains (prompt_footer question) question ∧
  ∀ system system' rest,
    build_prompt_with_context question context (system' :: rest)
    = build_prompt_with_context question context (system :: rest).
Proof.
  split_and!.
  - unfold build_prompt_with_context.
    by rewrite foldl_history_lines, string_app_assoc.
  - exists (LF +:+ "    Context information:" +:+ LF +:+ "    "),
      (LF +:+ LF +:+ "    Conversation history:" +:+ LF +:+ "    ").
    unfold prompt_header. by rewrite !string_app_assoc.
  - exists (LF +:+ "    Current question: "),
      (LF +:+ "    " +:+ LF
       +:+ "    Please provide a helpful response based on the context and conversation history."
       +:+ LF +:+ "    ").
    unfold prompt_footer. by rewrite !string_app_assoc.
  - done.
Qed.

(** ** Examples and counterexamples *)

(** Four records of one name are all returned: more than three. *)
Lemma retrieve_relevant_info_same_name_four :
  ¬ (length (retrieve_relevant_info Toy.encode Toy.cosine_similarity
               Toy.same_name_courses [] "python").1 ≤ 3).
Proof. vm_compute. lia. Qed.

Lemma retrieve_relevant_info_top3_witness :
  NoDup (Course.name <$> Toy.graded_courses) ∧
  length (retrieve_relevant_info Toy.encode Toy.cosine_similarity
            Toy.graded_courses Toy.instructors "q").1 ≤ 3.
Proof.
  assert (NoDup (Course.name <$> Toy.graded_courses)) as Hnodup.
  { compute_done. }
  split; [exact Hnodup|].
  exact (proj1 (retrieve_relevant_info_top3 Toy.encode Toy.cosine_similarity
                  Toy.graded_courses Toy.instructors "q") Hnodup).
Defined.

(** The four tied courses are ranked D, C, B, A, and B, C and D are the ones
    returned; in the order of insertion they would be A, B, C. *)
Example tied_courses_ranking :
  relevant (course_scores Toy.encode Toy.cosine_similarity Toy.tied_courses
              "q") = ["D"; "C"; "B"] ∧
  Course.name <$> (retrieve_relevant_info Toy.encode Toy.cosine_similarity
                     Toy.tied_courses [] "q").1 = ["B"; "C"; "D"].
Proof. by vm_compute. Qed.

Lemma ranking_ties_not_insertion_order :
  ¬ ties_keep_insertion_order
      (course_scores Toy.encode Toy.cosine_similarity Toy.tied_courses "q")
      (sorted_reverse tuple_ltb
         (course_scores Toy.encode Toy.cosine_similarity Toy.tied_courses
            "q")).
Proof.
  intros Hclaim.
  destruct (Hclaim 0 1 (inject_Z (-2), "D") (inject_Z (-2), "C"))
    as (i' & j' & Hi & Hj & Hlt); [by vm_compute|by vm_compute|lia|done|].
  vm_compute in Hi, Hj.
  destruct i' as [|[|[|[|i']]]]; try discriminate Hi.
  destruct j' as [|[|[|[|j']]]]; try discriminate Hj. lia.
Qed.

Lemma ranking_ties_by_name_witness :
  String.ltb "C" "D" = true.
Proof.
  apply (ranking_ties_by_name Toy.encode Toy.cosine_similarity
           Toy.tied_courses [] "q"
           (course_scores Toy.encode Toy.cosine_similarity Toy.tied_courses
              "q")
           0 1 (inject_Z (-2), "D") (inject_Z (-2), "C")).
  - left. reflexivity.
  - vm_compute. reflexivity.
  - vm_compute. reflexivity.
  - lia.
  - reflexivity.
Defined.

(** The best match of a long query is the last course of the dataset; the
    records still come back in the order of the dataset. *)
Example graded_courses_order :
  relevant (course_scores Toy.encode Toy.cosine_similarity Toy.graded_courses
              "a long query") = ["D"; "C"; "B"] ∧
  Course.name <$> (retrieve_relevant_info Toy.encode Toy.cosine_similarity
                     Toy.graded_courses [] "a long query").1
  = ["B"; "C"; "D"].
Proof. by vm_compute. Qed.

Lemma retrieve_relevant_info_dataset_order_witness :
  (retrieve_relevant_info Toy.encode Toy.cosine_similarity Toy.graded_courses
     Toy.instructors "a long query").1
  = filter (λ course, Course.name course ∈ ["B"; "C"; "D"])
      Toy.graded_courses.
Proof.
  apply (proj1 (proj2 (proj2 (retrieve_relevant_info_dataset_order
           Toy.encode Toy.cosine_similarity Toy.graded_courses
           Toy.instructors "a long query")))).
  compute_done.
Defined.

(** *** The endpoints on concrete requests *)

Lemma query_blank_question_witness :
  whitespace_only "   " ∧
  Toy.query_with (Toy.answers "hi") "uuid-1" Toy.empty_session
    {| QueryRequest.query := "   "; QueryRequest.conversationId := None |}
  = (JSON [("response", "Please enter a valid question.")],
     {| session := Toy.empty_session; steps := [] |}).
Proof.
  assert (whitespace_only "   ") as Hblank by (vm_compute; auto).
  split; [exact Hblank|].
  exact (query_blank_question Toy.encode Toy.cosine_similarity
           Toy.graded_courses Toy.instructors (Toy.answers "hi") "uuid-1"
           Toy.empty_session
           {| QueryRequest.query := "   ";
              QueryRequest.conversationId := None |} Hblank).
Defined.

Lemma query_generation_fails_witness :
  strip " which course? " ≠ "" ∧
  ∃ response,
    (Toy.query_with (Toy.fails "quota exceeded") "uuid-1" Toy.empty_session
       {| QueryRequest.query := " which course? ";
          QueryRequest.conversationId := Some "chat-1" |}).1
    = JSON [("response", response)] ∧
    contains response "(Error: quota exceeded)".
Proof.
  assert (strip " which course? " ≠ "") as Hq by (vm_compute; discriminate).
  split; [exact Hq|].
  exact (proj1 (proj2 (query_generation_fails Toy.encode Toy.cosine_similarity
                  Toy.graded_courses Toy.instructors
                  (Toy.fails "quota exceeded") "uuid-1" Toy.empty_session
                  {| QueryRequest.query := " which course? ";
                     QueryRequest.conversationId := Some "chat-1" |}
                  "quota exceeded" Hq eq_refl))).
Defined.

(** With the empty string as conversationId each call opens a conversation
    of its own, under the identifier generated for it: no history of the
    session holds the two exchanges. *)
Lemma query_twice_empty_id_no_history :
  let first :=
    Toy.query_with (Toy.answers "one") "uuid-1" Toy.empty_session
      {| QueryRequest.query := "first";
         QueryRequest.conversationId := Some "" |} in
  let second :=
    Toy.query_with (Toy.answers "two") "uuid-2" (session first.2)
      {| QueryRequest.query := "second";
         QueryRequest.conversationId := Some "" |} in
  ¬ ∃ cid,
      conversations (session second.2) ≫= (.!! cid)
      = Some [system_message;
              user_message "first"; assistant_message "one";
              user_message "second"; assistant_message "two"].
Proof.
  intros first second [cid Hcid].
  assert (conversations (session second.2)
          = Some (<["uuid-2" := [system_message; user_message "second";
                                 assistant_message "two"]]>
                    (<["uuid-1" := [system_message; user_message "first";
                                    assistant_message "one"]]> ∅))) as Heq.
  { by vm_compute. }
  rewrite Heq in Hcid. simpl in Hcid.
  apply lookup_insert_Some in Hcid as [[_ Hcid]|[_ Hcid]]; [done|].
  apply lookup_insert_Some in Hcid as [[_ Hcid]|[_ Hcid]]; [done|].
  by rewrite lookup_empty in Hcid.
Qed.

Lemma query_twice_history_witness :
  let first :=
    Toy.query_with (Toy.answers "one") "uuid-1" Toy.empty_session
      {| QueryRequest.query := "first";
         QueryRequest.conversationId := Some "chat-1" |} in
  let second :=
    Toy.query_with (Toy.answers "two") "uuid-2" (session first.2)
      {| QueryRequest.query := "second";
         QueryRequest.conversationId := Some "chat-1" |} in
  "chat-1" ≠ "" ∧ strip "first" ≠ "" ∧ strip "second" ≠ "" ∧
  conversations (session second.2) ≫= (.!! "chat-1")
  = Some [system_message;
          user_message (strip "first"); assistant_message (strip "one");
          user_message (strip "second"); assistant_message (strip "two")].
Proof.
  assert ("chat-1" ≠ "") as Hcid by discriminate.
  assert (strip "first" ≠ "") as Hq1 by (vm_compute; discriminate).
  assert (strip "second" ≠ "") as Hq2 by (vm_compute; discriminate).
  split_and!; [exact Hcid|exact Hq1|exact Hq2|].
  exact (proj2 (proj2 (proj2
           (query_twice_history Toy.encode Toy.cosine_similarity
              Toy.graded_courses Toy.instructors
              (Toy.answers "one") (Toy.answers "two") "uuid-1" "uuid-2"
              Toy.empty_session "chat-1" "first" "second" "one" "two"
              Hcid Hq1 Hq2 eq_refl eq_refl))) eq_refl).
Defined.

Lemma translate_blank_text_witness :
  whitespace_only "  " ∧
  translate (Toy.answers "hola") "uuid-1" Toy.empty_session
    {| TranslateRequest.text := "  "; TranslateRequest.target_lang := "es";
       TranslateRequest.conversationId := None |}
  = (JSON [("translation", "No text to translate")],
     {| session := Toy.empty_session; steps := [] |}).
Proof.
  assert (whitespace_only "  ") as Hblank by (vm_compute; auto).
  split; [exact Hblank|].
  exact (translate_blank_text (Toy.answers "hola") "uuid-1"
           Toy.empty_session
           {| TranslateRequest.text := "  ";
              TranslateRequest.target_lang := "es";
              TranslateRequest.conversationId := None |} Hblank).
Defined.

Lemma translate_generation_fails_witness :
  strip "good morning" ≠ "" ∧
  (translate (Toy.fails "timeout") "uuid-1" Toy.empty_session
     {| TranslateRequest.text := "good morning";
        TranslateRequest.target_lang := "es";
        TranslateRequest.conversationId := None |}).1
  = JSON [("translation", "Translation failed: timeout")].
Proof.
  assert (strip "good morning" ≠ "") as Htext by (vm_compute; discriminate).
  split; [exact Htext|].
  exact (proj1 (translate_generation_fails (Toy.fails "timeout") "uuid-1"
                  Toy.empty_session
                  {| TranslateRequest.text := "good morning";
                     TranslateRequest.target_lang := "es";
                     TranslateRequest.conversationId := None |}
                  "timeout" Htext eq_refl)).
Defined.

Lemma translate_records_on_success_only_witness :
  session (translate (Toy.fails "timeout") "uuid-1" Toy.empty_session
             {| TranslateRequest.text := "good morning";
                TranslateRequest.target_lang := "es";
                TranslateRequest.conversationId := None |}).2
  = Toy.empty_session.
Proof.
  exact (proj1 (translate_records_on_success_only (Toy.fails "timeout")
                  "uuid-1" Toy.empty_session
                  {| TranslateRequest.text := "good morning";
                     TranslateRequest.target_lang := "es";
                     TranslateRequest.conversationId := None |})
           "timeout" eq_refl).
Defined.

(** A successful translation, for comparison: one record under the generated
    identifier. *)
Example translate_success :
  let result :=
    translate (Toy.answers " buenos dias ") "uuid-1" Toy.empty_session
      {| TranslateRequest.text := "good morning";
         TranslateRequest.target_lang := "es";
         TranslateRequest.conversationId := None |} in
  result.1 = JSON [("translation", "buenos dias")] ∧
  translations (session result.2) ≫= (.!! "uuid-1")
  = Some [{| original := "good morning"; translation := "buenos dias";
             language := "es" |}].
Proof. by vm_compute. Qed.

(** * Further properties of the code *)

(** ** [str.strip] *)

Lemma string_rev_app_spec (s t : string) :
  String.rev_app s t = String.rev s +:+ t.
Proof.
  unfold String.rev. revert t.
  induction s as [|c s IH]; intros t; simpl; [done|].
  rewrite (IH (String c t)), (IH (String c "")).
  by rewrite string_app_assoc.
Qed.

Lemma string_rev_cons (c : ascii) (s : string) :
  String.rev (String c s) = String.rev s +:+ String c "".
Proof. unfold String.rev at 1. simpl. apply string_rev_app_spec. Qed.

Lemma string_rev_app (s t : string) :
  String.rev (s +:+ t) = String.rev t +:+ String.rev s.
Proof.
  induction s as [|c s IH].
  - by rewrite string_app_nil_r.
  - change (String c s +:+ t) with (String c (s +:+ t)).
    by rewrite !string_rev_cons, IH, string_app_assoc.
Qed.

Lemma string_rev_involutive (s : string) : String.rev (String.rev s) = s.
Proof.
  induction s as [|c s IH]; [done|].
  by rewrite string_rev_cons, string_rev_app, IH.
Qed.

Lemma whitespace_only_app (s t : string) :
  whitespace_only (s +:+ t) ↔ whitespace_only s ∧ whitespace_only t.
Proof.
  induction s as [|c s IH]; simpl; [tauto|].
  change (String c s +:+ t) with (String c (s +:+ t)). simpl.
  rewrite IH. tauto.
Qed.

Lemma whitespace_only_rev (s : string) :
  whitespace_only (String.rev s) ↔ whitespace_only s.
Proof.
  induction s as [|c s IH]; [done|].
  rewrite string_rev_cons, whitespace_only_app, IH. simpl. tauto.
Qed.

Lemma lstrip_empty (s : string) : lstrip s = "" ↔ whitespace_only s.
Proof.
  induction s as [|c s IH]; simpl; [done|].
  destruct (isspace c); [rewrite IH; tauto|].
  split; [done|]. by intros [? _].
Qed.

Lemma string_rev_empty (s : string) : String.rev s = "" ↔ s = "".
Proof.
  split; [|by intros ->]. intros H.
  by rewrite <-(string_rev_involutive s), H.
Qed.

(** What [lstrip] leaves is empty or starts with a character that is not
    whitespace. *)
Lemma lstrip_head (s : string) :
  lstrip s = "" ∨ ∃ c t, lstrip s = String c t ∧ isspace c = false.
Proof.
  induction s as [|c s IH]; simpl; [by left|].
  destruct (isspace c) eqn:Hc; [done|]. right. by exists c, s.
Qed.

Lemma lstrip_idemp (s : string) : lstrip (lstrip s) = lstrip s.
Proof.
  destruct (lstrip_head s) as [->|(c & t & -> & Hc)]; [done|].
  simpl. by rewrite Hc.
Qed.

Lemma lstrip_app (s t : string) :
  lstrip (s +:+ t) = if decide (lstrip s = "") then lstrip t
                     else lstrip s +:+ t.
Proof.
  induction s as [|c s IH]; [done|].
  change (String c s +:+ t) with (String c (s +:+ t)). simpl.
  destruct (isspace c); [done|]. by rewrite decide_False.
Qed.

Lemma strip_empty (s : string) : strip s = "" ↔ whitespace_only s.
Proof.
  unfold strip, rstrip.
  rewrite string_rev_empty, lstrip_empty, whitespace_only_rev.
  rewrite <-lstrip_empty, lstrip_idemp. apply lstrip_empty.
Qed.

(** [rstrip] keeps a first character that is not whitespace. *)
Lemma rstrip_head (c : ascii) (t : string) :
  isspace c = false → ∃ u, rstrip (String c t) = String c u.
Proof.
  intros Hc. unfold rstrip. rewrite string_rev_cons, lstrip_app.
  case_decide.
  - exists "". simpl. by rewrite Hc.
  - exists (String.rev (lstrip (String.rev t))).
    by rewrite string_rev_app.
Qed.

Lemma rstrip_idemp (s : string) : rstrip (rstrip s) = rstrip s.
Proof. unfold rstrip. by rewrite string_rev_involutive, lstrip_idemp. Qed.

Lemma strip_idemp (s : string) : strip (strip s) = strip s.
Proof.
  unfold strip. destruct (lstrip_head s) as [->|(c & t & -> & Hc)]; [done|].
  destruct (rstrip_head c t Hc) as [u Hu].
  assert (lstrip (rstrip (String c t)) = rstrip (String c t)) as ->.
  { rewrite Hu. simpl. by rewrite Hc. }
  apply rstrip_idemp.
Qed.

(** ** The dictionaries of embeddings *)

Lemma setitem_elem_of {V} k (v : V) d k' v' :
  NoDup (PyDict.keys d) →
  (k', v') ∈ PyDict.setitem k v d ↔
  k' = k ∧ v' = v ∨ k' ≠ k ∧ (k', v') ∈ d.
Proof.
  unfold PyDict.keys. induction d as [|[k0 v0] d IH]; csimpl; intros Hd.
  - rewrite list_elem_of_singleton, elem_of_nil.
    split; [intros [= -> ->]; by left|intros [[-> ->]|[_ []]]; done].
  - apply NoDup_cons in Hd as [Hk0 Hd].
    assert (∀ w, (k0, w) ∈ d → False) as Hfresh.
    { intros w Hw. apply Hk0. apply list_elem_of_fmap. by exists (k0, w). }
    destruct (String.eqb_spec k0 k) as [->|Hne]; rewrite !elem_of_cons.
    + split.
      * intros [[= -> ->]|Hin]; [by left|]. right. split; [|by right].
        intros ->. by eapply Hfresh.
      * intros [[-> ->]|[Hk [[= ? ?]|Hin]]]; [by left|done|by right].
    + rewrite (IH Hd). split.
      * intros [[= -> ->]|[[-> ->]|[Hk Hin]]].
        -- right. split; [done|by left].
        -- by left.
        -- right. split; [done|by right].
      * intros [[-> ->]|[Hk [[= -> ->]|Hin]]].
        -- right. by left.
        -- by left.
        -- right. right. by split.
Qed.

(** The value kept under a key is the one of the last record of that key. *)
Lemma comprehension_elem_of {R V} (key : R → string) (value : R → V) rs k v :
  (k, v) ∈ PyDict.comprehension key value rs ↔
  ∃ r, last (filter (λ r, key r = k) rs) = Some r ∧ v = value r.
Proof.
  unfold PyDict.comprehension.
  assert (∀ d, NoDup (PyDict.keys d) →
            (k, v) ∈ foldl (λ d r, PyDict.setitem (key r) (value r) d) d rs ↔
            match last (filter (λ r, key r = k) rs) with
            | Some r => v = value r
            | None => (k, v) ∈ d
            end) as Hfold.
  { induction rs as [|r rs IH]; intros d Hd; simpl; [done|].
    rewrite (IH _ (setitem_keys_NoDup _ _ _ Hd)), filter_cons.
    case_decide as Hr.
    - rewrite last_cons.
      destruct (last (filter (λ r, key r = k) rs)); [done|].
      rewrite setitem_elem_of by done. split; [|by left].
      intros [[_ ->]|[Hk _]]; [done|]. by destruct Hk.
    - destruct (last (filter (λ r, key r = k) rs)); [done|].
      rewrite setitem_elem_of by done. split; [|by right].
      intros [[Hk _]|[_ ?]]; [|done]. by destruct Hr. }
  rewrite (Hfold [] (NoDup_nil_2)).
  destruct (last (filter (λ r, key r = k) rs)) as [r|].
  - split; [intros ->; by exists r|by intros (r' & [= <-] & ->)].
  - rewrite elem_of_nil. split; [done|by intros (r' & [=] & _)].
Qed.

Lemma comprehension_length {R V} (key : R → string) (value : R → V) rs :
  length (PyDict.comprehension key value rs) = length (remove_dups (key <$> rs)).
Proof.
  rewrite <-(length_fmap fst). apply Permutation_length, NoDup_Permutation.
  - apply comprehension_keys_NoDup.
  - apply NoDup_remove_dups.
  - intros k. rewrite elem_of_remove_dups. apply comprehension_keys.
Qed.

Lemma filter_all {A} (P : A → Prop) `{!∀ x, Decision (P x)} (l : list A) :
  (∀ x, x ∈ l → P x) → filter P l = l.
Proof.
  induction l as [|x l IH]; intros Hl; [done|].
  rewrite filter_cons_True by (apply Hl, list_elem_of_here).
  f_equal. apply IH. intros y Hy. by apply Hl, list_elem_of_further.
Qed.

(** ** The names retrieval keeps *)

Lemma relevant_length_min scores :
  length (relevant scores) = 3 `min` length scores.
Proof.
  unfold relevant.
  by rewrite length_fmap, length_take, sorted_reverse_Permutation.
Qed.

Lemma relevant_subseteq scores name :
  name ∈ relevant scores → name ∈ scores.*2.
Proof.
  unfold relevant. intros (e & -> & He)%list_elem_of_fmap.
  apply list_elem_of_fmap. exists e. split; [done|].
  rewrite <-(sorted_reverse_Permutation tuple_ltb scores).
  by eapply subseteq_take.
Qed.

Lemma relevant_NoDup scores : NoDup scores.*2 → NoDup (relevant scores).
Proof.
  intros Hnodup. unfold relevant. rewrite fmap_take.
  eapply sublist_NoDup; [|apply sublist_take].
  by rewrite sorted_reverse_Permutation.
Qed.

Lemma relevant_all scores name :
  length scores ≤ 3 → name ∈ scores.*2 → name ∈ relevant scores.
Proof.
  intros Hlen Hname. unfold relevant. rewrite take_ge.
  - by rewrite sorted_reverse_Permutation.
  - by rewrite sorted_reverse_Permutation.
Qed.

(** A name is kept when fewer than three other names score at least as
    high. *)
Lemma relevant_complete scores s name :
  NoDup scores.*2 →
  (s, name) ∈ scores →
  length (filter (λ e, e.2 ≠ name ∧ Qltb e.1 s = false) scores) < 3 →
  name ∈ relevant scores.
Proof.
  intros Hnodup Hin Hfew. unfold relevant.
  set (ranking := sorted_reverse tuple_ltb scores).
  assert (ranking ≡ₚ scores) as Hperm by apply sorted_reverse_Permutation.
  assert ((s, name) ∈ ranking) as Hranked by (by rewrite Hperm).
  apply list_elem_of_split in Hranked as (before & after & Hsplit).
  assert (StronglySorted (flip (not_after tuple_ltb)) ranking) as Hsorted.
  { apply sorted_reverse_StronglySorted;
      [apply tuple_ltb_asym|apply tuple_not_after_trans]. }
  assert (NoDup ranking.*2) as Hnames by (by rewrite Hperm).
  rewrite Hsplit in Hsorted, Hnames.
  rewrite fmap_app, fmap_cons in Hnames. simpl in Hnames.
  apply NoDup_app in Hnames as (_ & Hfresh & _).
  assert (filter (λ e, e.2 ≠ name ∧ Qltb e.1 s = false) before = before)
    as Hbefore.
  { apply filter_all. intros e He. split.
    - intros <-. apply (Hfresh e.2); [|apply list_elem_of_here].
      by apply list_elem_of_fmap_2.
    - pose proof (StronglySorted_app_1_elem_of _ _ _ e (s, name) Hsorted He
                    (list_elem_of_here _ _)) as Hle.
      unfold flip, not_after in Hle.
      apply tuple_ltb_false in Hle as [Hlt|[Heq _]]; simpl in *.
      + apply not_true_iff_false. rewrite Qltb_lt. intros Hlt'.
        destruct (Qlt_irrefl s). by apply (Qlt_trans _ e.1).
      + apply not_true_iff_false. rewrite Qltb_lt. intros Hlt'.
        apply (Qlt_eq_l _ _ _ Heq) in Hlt'. by apply Qlt_irrefl in Hlt'. }
  assert (length before < 3) as Hshort.
  { rewrite <-Hbefore. eapply Nat.le_lt_trans; [|exact Hfew].
    rewrite <-Hperm, Hsplit, filter_app, length_app. lia. }
  apply list_elem_of_fmap. exists (s, name). split; [done|].
  apply elem_of_take. exists (length before). split; [|done].
  rewrite Hsplit. by apply list_lookup_middle.
Qed.

Section RetrievalMore.
Context {Embedding : Type}.
Context (encode : string → Embedding).
Context (cosine_similarity : Embedding → Embedding → Q).
Context (courses : list Course.t) (instructors : list Instructor.t).

Lemma scores_length query_embedding (embeddings : list (string * Embedding)) :
  length (scores cosine_similarity query_embedding embeddings)
  = length embeddings.
Proof. unfold scores. apply length_fmap. Qed.

Lemma course_scores_names query name :
  name ∈ (course_scores encode cosine_similarity courses query).*2 ↔
  name ∈ Course.name <$> courses.
Proof.
  unfold course_scores. rewrite scores_names. apply comprehension_keys.
Qed.

Lemma instructor_scores_names query name :
  name ∈ (instructor_scores encode cosine_similarity instructors query).*2 ↔
  name ∈ Instructor.name <$> instructors.
Proof.
  unfold instructor_scores. rewrite scores_names. apply comprehension_keys.
Qed.

Lemma course_scores_length query :
  length (course_scores encode cosine_similarity courses query)
  = length (remove_dups (Course.name <$> courses)).
Proof.
  unfold course_scores. rewrite scores_length. apply comprehension_length.
Qed.

Lemma instructor_scores_length query :
  length (instructor_scores encode cosine_similarity instructors query)
  = length (remove_dups (Instructor.name <$> instructors)).
Proof.
  unfold instructor_scores. rewrite scores_length.
  apply comprehension_length.
Qed.

(** The distinct names among the records kept are the relevant names. *)
Lemma matched_names {R} (name : R → string) (names : list string)
    (records : list R) :
  NoDup names →
  (∀ n, n ∈ names → n ∈ name <$> records) →
  remove_dups (name <$> filter (λ r, name r ∈ names) records) ≡ₚ names.
Proof.
  intros Hnodup Hsub. apply NoDup_Permutation; [apply NoDup_remove_dups|done|].
  intros n. rewrite elem_of_remove_dups, list_elem_of_fmap. split.
  - by intros (r & -> & [Hr _]%list_elem_of_filter).
  - intros Hn. pose proof (Hsub n Hn) as Hn'.
    apply list_elem_of_fmap in Hn' as (r & -> & Hr).
    exists r. split; [done|]. by apply list_elem_of_filter.
Qed.

Abbreviation retrieve_relevant_info :=
  (retrieve_relevant_info encode cosine_similarity courses instructors).
Abbreviation course_scores :=
  (course_scores encode cosine_similarity courses).
Abbreviation instructor_scores :=
  (instructor_scores encode cosine_similarity instructors).
Abbreviation course_embeddings := (course_embeddings encode courses).
Abbreviation instructor_embeddings :=
  (instructor_embeddings encode instructors).

(** X1. Each dictionary of embeddings has the names of its dataset as keys,
    every name once, however often the dataset lists it. *)
Theorem embeddings_keys :
  NoDup (PyDict.keys course_embeddings) ∧
  NoDup (PyDict.keys instructor_embeddings) ∧
  (∀ name, name ∈ PyDict.keys course_embeddings ↔
           name ∈ Course.name <$> courses) ∧
  (∀ name, name ∈ PyDict.keys instructor_embeddings ↔
           name ∈ Instructor.name <$> instructors).
Proof.
  split_and!; try apply comprehension_keys_NoDup;
    intros name; apply comprehension_keys.
Qed.

(** X2. When the dataset lists a name more than once, the embedding kept for
    the name is the one of the last record that bears it: the dictionary
    holds [(name, embedding)] exactly when the embedding encodes the text of
    that last record. *)
Theorem embeddings_last_record_wins :
  (∀ name embedding,
     (name, embedding) ∈ course_embeddings ↔
     ∃ course,
       last (filter (λ course, Course.name course = name) courses)
         = Some course ∧
       embedding
         = encode (Course.name course +:+ " " +:+ Course.description course)) ∧
  (∀ name embedding,
     (name, embedding) ∈ instructor_embeddings ↔
     ∃ instructor,
       last (filter (λ instructor, Instructor.name instructor = name)
               instructors) = Some instructor ∧
       embedding
         = encode (Instructor.name instructor +:+ " "
                   +:+ Instructor.bio instructor)).
Proof. split; intros name embedding; apply comprehension_elem_of. Qed.

(** X3. Retrieval returns records of exactly min(3, n) distinct course names,
    n the number of distinct course names of the dataset, and likewise for
    the instructors: there is no threshold on the similarity. *)
Theorem retrieve_relevant_info_count (query : string) :
  let matched := retrieve_relevant_info query in
  length (remove_dups (Course.name <$> matched.1))
    = 3 `min` length (remove_dups (Course.name <$> courses)) ∧
  length (remove_dups (Instructor.name <$> matched.2))
    = 3 `min` length (remove_dups (Instructor.name <$> instructors)).
Proof.
  simpl. split.
  - rewrite matched_names.
    + by rewrite relevant_length_min, course_scores_length.
    + apply relevant_NoDup, course_scores_NoDup.
    + intros n Hn%relevant_subseteq. by apply (course_scores_names query).
  - rewrite matched_names.
    + by rewrite relevant_length_min, instructor_scores_length.
    + apply relevant_NoDup, instructor_scores_NoDup.
    + intros n Hn%relevant_subseteq.
      by apply (instructor_scores_names query).
Qed.

(** X4. A dataset of at most three distinct course names is returned whole,
    in its order, whatever the query; likewise for the instructors. *)
Theorem retrieve_relevant_info_small_dataset (query : string) :
  (length (remove_dups (Course.name <$> courses)) ≤ 3 →
   (retrieve_relevant_info query).1 = courses) ∧
  (length (remove_dups (Instructor.name <$> instructors)) ≤ 3 →
   (retrieve_relevant_info query).2 = instructors).
Proof.
  simpl. split; intros Hsmall; apply filter_all.
  - intros course Hcourse. apply relevant_all.
    + by rewrite course_scores_length.
    + apply course_scores_names. by apply list_elem_of_fmap_2.
  - intros instructor Hinstructor. apply relevant_all.
    + by rewrite instructor_scores_length.
    + apply instructor_scores_names. by apply list_elem_of_fmap_2.
Qed.

(** X5. A course is returned whenever fewer than three other names have a
    score at least as high as the score of its name. *)
Theorem retrieve_relevant_info_best_matches (query : string)
    (course : Course.t) (s : Q) :
  course ∈ courses →
  (s, Course.name course) ∈ course_scores query →
  length (filter (λ e, e.2 ≠ Course.name course ∧ Qltb e.1 s = false)
            (course_scores query)) < 3 →
  course ∈ (retrieve_relevant_info query).1.
Proof.
  intros Hcourse Hscore Hfew. simpl. apply list_elem_of_filter.
  split; [|done].
  eapply relevant_complete; [apply course_scores_NoDup|done..].
Qed.

End RetrievalMore.

Lemma join_app (l1 l2 : list string) : join (l1 ++ l2) = join l1 +:+ join l2.
Proof.
  induction l1 as [|x l1 IH]; simpl; [done|].
  by rewrite IH, string_app_assoc.
Qed.

(** ** The session across a request *)

Section QueryMore.
Context {Embedding : Type}.
Context (encode : string → Embedding).
Context (cosine_similarity : Embedding → Embedding → Q).
Context (courses : list Course.t) (instructors : list Instructor.t).

Lemma query_prompt_build uuid4 s data :
  let question := strip (QueryRequest.query data) in
  let conversation_id := py_or (QueryRequest.conversationId data) uuid4 in
  let matched :=
    retrieve_relevant_info encode cosine_similarity courses instructors
      question in
  query_prompt encode cosine_similarity courses instructors uuid4 s data
  = build_prompt_with_context question
      (format_context matched.1 matched.2)
      (found_history s conversation_id ++ [user_message question]).
Proof. done. Qed.

Abbreviation query_endpoint :=
  (query encode cosine_similarity courses instructors).
Abbreviation query_prompt :=
  (query_prompt encode cosine_similarity courses instructors).

(** The session a request with a valid question leaves: the history found,
    the user message, and the assistant message if there is one. *)
Lemma query_session generate_content uuid4 s data :
  let question := strip (QueryRequest.query data) in
  let conversation_id := py_or (QueryRequest.conversationId data) uuid4 in
  question ≠ "" →
  ∃ reply,
    (reply = [] ∨ ∃ generated,
       generate_content (query_prompt uuid4 s data) = Text generated ∧
       reply = [assistant_message (strip generated)]) ∧
    session (query_endpoint generate_content uuid4 s data).2
    = {| conversations :=
           Some (<[conversation_id :=
                     found_history s conversation_id
                     ++ user_message question :: reply]>
                   (default ∅ (conversations s)));
         translations := translations s |}.
Proof.
  intros question conversation_id Hq.
  rewrite query_valid_question by done. unfold query_outcome.
  fold question conversation_id.
  destruct (generate_content _) as [e|generated] eqn:Hgen; simpl.
  - exists []. split; [by left|]. done.
  - exists [assistant_message (strip generated)]. split; [by eauto|].
    by rewrite <-app_assoc.
Qed.

Lemma lookup_conversations (s : Session) cid :
  default ∅ (conversations s) !! cid = conversations s ≫= (.!! cid).
Proof. destruct (conversations s); [done|apply lookup_empty]. Qed.

(** X6. [/api/query] performs nothing outside when the query is blank, and
    otherwise exactly one retrieval followed by exactly one call to the
    generative model; the query is taken for blank exactly when it is empty
    or made of whitespace only. *)
Theorem query_steps generate_content uuid4 s data :
  let question := strip (QueryRequest.query data) in
  let result := query_endpoint generate_content uuid4 s data in
  (whitespace_only (QueryRequest.query data) ∧ steps result.2 = []) ∨
  (¬ whitespace_only (QueryRequest.query data) ∧
   steps result.2
   = [Retrieve question; GenerateContent (query_prompt uuid4 s data)]).
Proof.
  intros question result. subst result.
  destruct (decide (question = "")) as [Hq|Hq].
  - left. split; [by apply strip_empty|]. by rewrite query_no_question.
  - right. split; [by rewrite <-strip_empty|].
    rewrite query_valid_question by done. unfold query_outcome.
    by destruct (generate_content _).
Qed.

(** X7. [/api/query] never ends in an error status: whatever the request,
    the session and the fate of the call to the model, it returns a JSON
    body with the one field [response]. *)
Theorem query_always_json generate_content uuid4 s data :
  ∃ response,
    (query encode cosine_similarity courses instructors generate_content
       uuid4 s data).1
    = JSON [("response", response)].
Proof.
  destruct (decide (strip (QueryRequest.query data) = "")) as [Hq|Hq].
  - rewrite query_no_question by done. by eexists.
  - rewrite query_valid_question by done. unfold query_outcome.
    destruct (generate_content _); by eexists.
Qed.

(** X8. [/api/query] leaves the translations of the session as they are. *)
Theorem query_keeps_translations generate_content uuid4 s data :
  translations
    (session (query encode cosine_similarity courses instructors
                generate_content uuid4 s data).2)
  = translations s.
Proof.
  destruct (decide (strip (QueryRequest.query data) = "")) as [Hq|Hq].
  - by rewrite query_no_question.
  - by destruct (query_session generate_content uuid4 s data Hq)
      as (reply & _ & ->).
Qed.

(** X9. The histories only grow: a history the session held before the
    request is a prefix of the history held after it, under the same
    identifier. *)
Theorem query_append_only generate_content uuid4 s data cid history :
  conversations s ≫= (.!! cid) = Some history →
  ∃ added,
    conversations
      (session (query encode cosine_similarity courses instructors
                  generate_content uuid4 s data).2)
      ≫= (.!! cid)
    = Some (history ++ added).
Proof.
  intros Hfound.
  destruct (decide (strip (QueryRequest.query data) = "")) as [Hq|Hq].
  - rewrite query_no_question by done. exists []. by rewrite app_nil_r.
  - destruct (query_session generate_content uuid4 s data Hq)
      as (reply & _ & ->). simpl.
    set (conversation_id := py_or _ _).
    destruct (decide (conversation_id = cid)) as [->|Hne].
    + rewrite lookup_insert_eq. unfold found_history. rewrite Hfound.
      by eexists.
    + rewrite lookup_insert_ne, lookup_conversations by done.
      exists []. by rewrite app_nil_r.
Qed.

(** X10. A session whose conversations all open with the system message
    still is one after the request: the message the prompt skips is the
    system message. *)
Theorem query_opens_with_system generate_content uuid4 s data :
  opens_with_system s →
  opens_with_system
    (session (query_endpoint generate_content uuid4 s data).2).
Proof.
  intros Hs.
  destruct (decide (strip (QueryRequest.query data) = "")) as [Hq|Hq].
  - by rewrite query_no_question.
  - destruct (query_session generate_content uuid4 s data Hq)
      as (reply & _ & ->).
    set (conversation_id := py_or _ _).
    intros cid history. simpl.
    destruct (decide (conversation_id = cid)) as [->|Hne].
    + rewrite lookup_insert_eq. intros [= <-]. unfold found_history.
      destruct (conversations s ≫= (.!! cid)) as [found|] eqn:Hfound;
        simpl; [|done].
      apply Hs in Hfound. by destruct found.
    + rewrite lookup_insert_ne, lookup_conversations by done. apply Hs.
Qed.

(** X11. A session whose messages all have a content without surrounding
    whitespace, and no empty user message, still is one after the
    request. *)
Theorem query_messages_stripped generate_content uuid4 s data :
  messages_stripped s →
  messages_stripped
    (session (query_endpoint generate_content uuid4 s data).2).
Proof.
  intros Hs.
  destruct (decide (strip (QueryRequest.query data) = "")) as [Hq|Hq].
  - by rewrite query_no_question.
  - destruct (query_session generate_content uuid4 s data Hq)
      as (reply & Hreply & ->).
    set (conversation_id := py_or _ _).
    intros cid history msg. simpl.
    destruct (decide (conversation_id = cid)) as [->|Hne].
    + rewrite lookup_insert_eq. intros [= <-].
      rewrite elem_of_app, elem_of_cons.
      intros [Hmsg|[->|Hmsg]].
      * unfold found_history in Hmsg.
        destruct (conversations s ≫= (.!! cid)) as [found|] eqn:Hfound;
          simpl in Hmsg; [by eapply Hs|].
        apply list_elem_of_singleton in Hmsg as ->.
        split; [by vm_compute|done].
      * simpl. split; [apply strip_idemp|done].
      * destruct Hreply as [->|(generated & _ & ->)];
          [by apply elem_of_nil in Hmsg|].
        apply list_elem_of_singleton in Hmsg as ->. simpl.
        split; [apply strip_idemp|done].
    + rewrite lookup_insert_ne, lookup_conversations by done. apply Hs.
Qed.

(** X12. A valid question answered by the model: the response is the stripped
    text, and the conversation gains the user message and the assistant
    message, in this order, the other conversations staying as they
    were. *)
Theorem query_generation_succeeds generate_content uuid4 s data generated :
  let question := strip (QueryRequest.query data) in
  let conversation_id := py_or (QueryRequest.conversationId data) uuid4 in
  let result := query_endpoint generate_content uuid4 s data in
  question ≠ "" →
  generate_content (query_prompt uuid4 s data) = Text generated →
  result.1 = JSON [("response", strip generated)] ∧
  conversations (session result.2) ≫= (.!! conversation_id)
    = Some (found_history s conversation_id
            ++ [user_message question;
                assistant_message (strip generated)]) ∧
  ∀ other, other ≠ conversation_id →
    conversations (session result.2) ≫= (.!! other)
    = conversations s ≫= (.!! other).
Proof.
  intros question conversation_id result Hq Hgen. subst result.
  rewrite query_valid_question by done. unfold query_outcome.
  rewrite Hgen. simpl. fold question conversation_id. split_and!; [done| |].
  - by rewrite lookup_insert_eq, <-app_assoc.
  - intros other Hother.
    by rewrite lookup_insert_ne, lookup_conversations.
Qed.


(** X14. With conversations that open with the system message, the prompt of
    a valid question carries every earlier message of the conversation but
    the system message, then the question itself as the last line of the
    history, then the question again as the current question: nothing is
    truncated. *)
Theorem query_prompt_layout uuid4 s data :
  let question := strip (QueryRequest.query data) in
  let conversation_id := py_or (QueryRequest.conversationId data) uuid4 in
  let matched :=
    retrieve_relevant_info encode cosine_similarity courses instructors
      question in
  opens_with_system s →
  query_prompt uuid4 s data
  = prompt_header (format_context matched.1 matched.2)
    +:+ join (history_line <$> drop 1 (found_history s conversation_id))
    +:+ ("user: " +:+ question +:+ LF)
    +:+ prompt_footer question.
Proof.
  intros question conversation_id matched Hs.
  rewrite query_prompt_build. fold question conversation_id matched.
  unfold build_prompt_with_context. rewrite foldl_history_lines.
  assert (∃ m rest, found_history s conversation_id = m :: rest)
    as (m & rest & ->).
  { unfold found_history.
    destruct (conversations s ≫= (.!! conversation_id)) as [found|]
      eqn:Hfound; simpl; [|by eexists _, _].
    apply Hs in Hfound. destruct found; [done|by eexists _, _]. }
  change (drop 1 ((m :: rest) ++ [user_message question]))
    with (rest ++ [user_message question]).
  change (drop 1 (m :: rest)) with rest.
  rewrite fmap_app, join_app.
  change (join (history_line <$> [user_message question]))
    with (("user" +:+ ": " +:+ question +:+ LF) +:+ "").
  rewrite string_app_nil_r, !string_app_assoc. done.
Qed.

End QueryMore.

(** ** The translation endpoint across a request *)

Lemma lookup_translations (s : Session) cid :
  default ∅ (translations s) !! cid = translations s ≫= (.!! cid).
Proof. destruct (translations s); [done|apply lookup_empty]. Qed.

(** The session a request with a text to translate leaves. *)
Lemma translate_session generate_content uuid4 s data :
  let text := strip (TranslateRequest.text data) in
  let target_lang := TranslateRequest.target_lang data in
  let conversation_id := py_or (TranslateRequest.conversationId data) uuid4 in
  let after := session (translate generate_content uuid4 s data).2 in
  text ≠ "" →
  after = s ∨
  ∃ generated,
    generate_content (translation_prompt target_lang text) = Text generated ∧
    after
    = {| conversations := conversations s;
         translations :=
           Some (<[conversation_id :=
                     default [] (translations s ≫= (.!! conversation_id))
                     ++ [{| original := text;
                            translation := strip generated;
                            language := target_lang |}]]>
                   (default ∅ (translations s))) |}.
Proof.
  intros text target_lang conversation_id after Htext. subst after.
  rewrite translate_some_text by done. unfold translate_outcome.
  fold text target_lang conversation_id.
  destruct (generate_content _) as [e|generated] eqn:Hgen; simpl;
    [by left|right]. by exists generated.
Qed.

(** X15. [/api/translate] never ends in an error status, and calls the
    generative model at most once: it returns a JSON body with the one field
    [translation], after no step outside when the text is blank (empty or
    whitespace only) and after exactly one call to the model otherwise. *)
Theorem translate_always_json generate_content uuid4 s data :
  let text := strip (TranslateRequest.text data) in
  let prompt :=
    translation_prompt (TranslateRequest.target_lang data) text in
  let result := translate generate_content uuid4 s data in
  (∃ translation, result.1 = JSON [("translation", translation)]) ∧
  (whitespace_only (TranslateRequest.text data) ∧ steps result.2 = [] ∨
   ¬ whitespace_only (TranslateRequest.text data) ∧
   steps result.2 = [GenerateContent prompt]).
Proof.
  intros text prompt result. subst result.
  destruct (decide (text = "")) as [Htext|Htext].
  - rewrite translate_no_text by done. split; [by eexists|].
    left. split; [by apply strip_empty|done].
  - rewrite translate_some_text by done. unfold translate_outcome.
    fold text prompt. split.
    + destruct (generate_content prompt); by eexists.
    + right. split; [by rewrite <-strip_empty|].
      by destruct (generate_content prompt).
Qed.

(** X16. [/api/translate] leaves the conversations of the session as they
    are, and its lists of translations only grow: a list the session held
    before the request is a prefix of the list held after it. *)
Theorem translate_append_only generate_content uuid4 s data :
  let after := session (translate generate_content uuid4 s data).2 in
  conversations after = conversations s ∧
  ∀ cid records,
    translations s ≫= (.!! cid) = Some records →
    ∃ added, translations after ≫= (.!! cid) = Some (records ++ added).
Proof.
  intros after. subst after.
  destruct (decide (strip (TranslateRequest.text data) = "")) as [Ht|Ht].
  { rewrite translate_no_text by done. split; [done|].
    intros cid records Hfound. exists []. by rewrite app_nil_r. }
  destruct (translate_session generate_content uuid4 s data Ht)
    as [->|(generated & _ & ->)].
  { split; [done|]. intros cid records Hfound. exists [].
    by rewrite app_nil_r. }
  split; [done|]. intros cid records Hfound. simpl.
  set (conversation_id := py_or _ _).
  destruct (decide (conversation_id = cid)) as [->|Hne].
  - rewrite lookup_insert_eq, Hfound. by eexists.
  - rewrite lookup_insert_ne, lookup_translations by done.
    exists []. by rewrite app_nil_r.
Qed.

(** X17. A session whose translation records all have a non-empty original
    text, and an original and a translation without surrounding whitespace,
    still is one after the request. *)
Theorem translate_records_stripped generate_content uuid4 s data :
  records_stripped s →
  records_stripped (session (translate generate_content uuid4 s data).2).
Proof.
  intros Hs.
  destruct (decide (strip (TranslateRequest.text data) = "")) as [Ht|Ht].
  { by rewrite translate_no_text. }
  destruct (translate_session generate_content uuid4 s data Ht)
    as [->|(generated & _ & ->)]; [done|].
  set (conversation_id := py_or _ _).
  intros cid records record. simpl.
  destruct (decide (conversation_id = cid)) as [->|Hne].
  - rewrite lookup_insert_eq. intros [= <-].
    rewrite elem_of_app, list_elem_of_singleton. intros [Hrecord| ->].
    + destruct (translations s ≫= (.!! cid)) as [found|] eqn:Hfound;
        simpl in Hrecord; [by eapply Hs|by apply elem_of_nil in Hrecord].
    + simpl. split_and!; [done|apply strip_idemp..].
  - rewrite lookup_insert_ne, lookup_translations by done. apply Hs.
Qed.

(** X18. Two translations under the same non-empty conversationId, both
    answered by the model, leave under that identifier the records found
    followed by the record of the first and the record of the second, in
    this order. *)
Theorem translate_twice gen1 gen2 uuid1 uuid2 s cid text1 lang1 text2 lang2
    generated1 generated2 :
  let data1 :=
    {| TranslateRequest.text := text1; TranslateRequest.target_lang := lang1;
       TranslateRequest.conversationId := Some cid |} in
  let data2 :=
    {| TranslateRequest.text := text2; TranslateRequest.target_lang := lang2;
       TranslateRequest.conversationId := Some cid |} in
  let first := translate gen1 uuid1 s data1 in
  let second := translate gen2 uuid2 (session first.2) data2 in
  cid ≠ "" →
  strip text1 ≠ "" →
  strip text2 ≠ "" →
  gen1 (translation_prompt lang1 (strip text1)) = Text generated1 →
  gen2 (translation_prompt lang2 (strip text2)) = Text generated2 →
  translations (session second.2) ≫= (.!! cid)
  = Some (default [] (translations s ≫= (.!! cid))
          ++ [{| original := strip text1; translation := strip generated1;
                 language := lang1 |};
              {| original := strip text2; translation := strip generated2;
                 language := lang2 |}]).
Proof.
  intros data1 data2 first second Hcid Ht1 Ht2 Hgen1 Hgen2.
  assert (String.eqb cid "" = false) as Hid.
  { by destruct (String.eqb_spec cid ""). }
  pose (record1 := {| original := strip text1;
                      translation := strip generated1;
                      language := lang1 |}).
  pose (s1 := {| conversations := conversations s;
                 translations :=
                   Some (<[cid := default [] (translations s ≫= (.!! cid))
                                  ++ [record1]]>
                           (default ∅ (translations s))) |}).
  assert (session first.2 = s1) as Hs1.
  { subst first. rewrite translate_some_text by done.
    unfold translate_outcome, data1.
    cbn [TranslateRequest.text TranslateRequest.target_lang
         TranslateRequest.conversationId py_or].
    by rewrite Hgen1, Hid. }
  subst second. rewrite Hs1, translate_some_text by done.
  unfold translate_outcome, data2.
  cbn [TranslateRequest.text TranslateRequest.target_lang
       TranslateRequest.conversationId py_or].
  rewrite Hgen2, Hid. unfold s1. simpl.
  rewrite !lookup_insert_eq. simpl. by rewrite <-app_assoc.
Qed.

(** ** The context block *)

Lemma foldl_append {A} (f : A → string) (init : string) (l : list A) :
  foldl (λ acc x, acc +:+ f x) init l = init +:+ join (f <$> l).
Proof.
  revert init. induction l as [|x l IH]; intros init; simpl.
  - by rewrite string_app_nil_r.
  - by rewrite IH, string_app_assoc.
Qed.

(** [strip] keeps a prefix that neither starts nor ends with whitespace. *)
Lemma strip_keeps_prefix (c : ascii) (p t : string) :
  isspace c = false →
  lstrip (String.rev (String c p)) = String.rev (String c p) →
  strip (String c p +:+ t) = String c p +:+ rstrip t.
Proof.
  intros Hc Hend. unfold strip.
  assert (lstrip (String c p +:+ t) = String c p +:+ t) as ->.
  { change (String c p +:+ t) with (String c (p +:+ t)). simpl.
    by rewrite Hc. }
  unfold rstrip. rewrite string_rev_app, lstrip_app. case_decide as Ht.
  - by rewrite Ht, Hend, string_rev_involutive, string_app_nil_r.
  - by rewrite string_rev_app, string_rev_involutive.
Qed.

(** The text [format_context] strips. *)
Lemma format_context_text (courses : list Course.t)
    (instructors : list Instructor.t) :
  let course_line course :=
    "- " +:+ Course.name course +:+ ": " +:+ Course.description course
    +:+ " (Instructor: " +:+ Course.instructor course +:+ ", Duration: "
    +:+ Course.duration course +:+ ")" +:+ LF in
  let instructor_line instructor :=
    "- " +:+ Instructor.name instructor +:+ ": "
    +:+ Instructor.bio instructor +:+ LF in
  format_context courses instructors
  = strip
      ((if decide (courses = []) then ""
        else "Relevant Courses:" +:+ LF +:+ join (course_line <$> courses))
       +:+ (if decide (instructors = []) then ""
            else LF +:+ "Relevant Instructors:" +:+ LF
                 +:+ join (instructor_line <$> instructors))).
Proof.
  intros course_line instructor_line. unfold format_context.
  destruct courses as [|course courses], instructors as
    [|instructor instructors]; cbv zeta.
  - done.
  - rewrite (foldl_append instructor_line). by rewrite !string_app_assoc.
  - rewrite (foldl_append course_line).
    by rewrite !string_app_assoc, string_app_nil_r.
  - rewrite (foldl_append course_line), (foldl_append instructor_line).
    by rewrite !string_app_assoc.
Qed.

Lemma strip_LF (s : string) : strip ("" +:+ LF +:+ s) = strip s.
Proof. done. Qed.

Lemma format_context_heads (courses : list Course.t)
    (instructors : list Instructor.t) :
  (courses ≠ [] →
   ∃ rest, format_context courses instructors
           = "Relevant Courses:" +:+ rest) ∧
  (courses = [] → instructors ≠ [] →
   ∃ rest, format_context courses instructors
           = "Relevant Instructors:" +:+ rest).
Proof.
  rewrite format_context_text. cbv zeta. split.
  - intros Hcourses. rewrite decide_False by done.
    rewrite !string_app_assoc.
    eexists. by apply strip_keeps_prefix.
  - intros -> Hinstructors. rewrite decide_True, decide_False by done.
    rewrite strip_LF.
    eexists. by apply strip_keeps_prefix.
Qed.

(** X19. The context block opens with the heading of the courses when there
    are matched courses, and with the heading of the instructors when there
    are matched instructors only: the line feed written before that heading
    is stripped away. *)
Theorem format_context_heading (courses : list Course.t)
    (instructors : list Instructor.t) :
  (courses ≠ [] →
   ∃ rest, format_context courses instructors
           = "Relevant Courses:" +:+ rest) ∧
  (courses = [] → instructors ≠ [] →
   ∃ rest, format_context courses instructors
           = "Relevant Instructors:" +:+ rest).
Proof. apply format_context_heads. Qed.

(** X20. The context block has no surrounding whitespace, and it is empty
    exactly when there are neither matched courses nor matched
    instructors. *)
Theorem format_context_stripped (courses : list Course.t)
    (instructors : list Instructor.t) :
  strip (format_context courses instructors)
    = format_context courses instructors ∧
  (format_context courses instructors = "" ↔
   courses = [] ∧ instructors = []).
Proof.
  split; [apply strip_idemp|]. split.
  - intros Hempty.
    destruct (format_context_heads courses instructors) as [Hc Hi].
    destruct courses as [|course courses].
    + split; [done|]. destruct instructors as [|instructor instructors];
        [done|].
      destruct Hi as [rest Hrest]; [done..|]. by rewrite Hrest in Hempty.
    + destruct Hc as [rest Hrest]; [done|]. by rewrite Hrest in Hempty.
  - by intros [-> ->].
Qed.

(** ** The ranking *)

(** X21. The ranking from which the three names are taken holds the scored
    names, each as often as it was scored, in an order in which the score
    never increases. *)
Theorem ranking_descending (scores : list (Q * string)) (i j : nat)
    (a b : Q * string) :
  let ranking := sorted_reverse tuple_ltb scores in
  ranking ≡ₚ scores ∧
  (ranking !! i = Some a → ranking !! j = Some b → i < j →
   (b.1 <= a.1)%Q).
Proof.
  split; [apply sorted_reverse_Permutation|].
  intros Hi Hj Hij.
  destruct (ranking_lookup scores i j a b Hi Hj Hij) as [Hlt|[Heq _]].
  - by apply Qlt_le_weak.
  - apply Qle_lteq. right. by apply Qeq_sym.
Qed.

(** ** The further properties on concrete requests *)

Lemma retrieve_relevant_info_small_dataset_witness :
  (retrieve_relevant_info Toy.encode Toy.cosine_similarity
     Toy.same_name_courses Toy.instructors "python").1
  = Toy.same_name_courses.
Proof.
  apply (proj1 (retrieve_relevant_info_small_dataset Toy.encode
                  Toy.cosine_similarity Toy.same_name_courses
                  Toy.instructors "python")).
  vm_compute. lia.
Defined.

Lemma retrieve_relevant_info_best_matches_witness :
  Toy.course "D" "xxxx"
  ∈ (retrieve_relevant_info Toy.encode Toy.cosine_similarity
       Toy.graded_courses Toy.instructors "a long query").1.
Proof.
  apply (retrieve_relevant_info_best_matches Toy.encode
           Toy.cosine_similarity Toy.graded_courses Toy.instructors
           "a long query" (Toy.course "D" "xxxx") (inject_Z (-6))).
  - apply (list_elem_of_lookup_2 _ 3). reflexivity.
  - apply (list_elem_of_lookup_2 _ 3). vm_compute. reflexivity.
  - vm_compute. lia.
Defined.

Lemma ranking_descending_witness :
  (inject_Z (-7) <= inject_Z (-6))%Q.
Proof.
  apply (ranking_descending
           (course_scores Toy.encode Toy.cosine_similarity
              Toy.graded_courses "a long query")
           0 1 (inject_Z (-6), "D") (inject_Z (-7), "C")).
  - vm_compute. reflexivity.
  - vm_compute. reflexivity.
  - lia.
Defined.

(** A session with one exchange under ["chat-1"]. *)
Lemma query_append_only_witness :
  let s :=
    session (Toy.query_with (Toy.answers "one") "uuid-1" Toy.empty_session
               {| QueryRequest.query := "first";
                  QueryRequest.conversationId := Some "chat-1" |}).2 in
  ∃ added,
    conversations
      (session (Toy.query_with (Toy.fails "down") "uuid-2" s
                  {| QueryRequest.query := "second";
                     QueryRequest.conversationId := Some "chat-1" |}).2)
      ≫= (.!! "chat-1")
    = Some ([system_message; user_message "first"; assistant_message "one"]
            ++ added).
Proof.
  intros s.
  apply (query_append_only Toy.encode Toy.cosine_similarity
           Toy.graded_courses Toy.instructors (Toy.fails "down") "uuid-2" s
           {| QueryRequest.query := "second";
              QueryRequest.conversationId := Some "chat-1" |} "chat-1").
  vm_compute. reflexivity.
Defined.

Lemma query_opens_with_system_witness :
  opens_with_system
    (session (Toy.query_with (Toy.answers "one") "uuid-1" Toy.empty_session
                {| QueryRequest.query := "first";
                   QueryRequest.conversationId := None |}).2).
Proof.
  apply (query_opens_with_system Toy.encode Toy.cosine_similarity
           Toy.graded_courses Toy.instructors).
  intros cid history Hfound. discriminate Hfound.
Defined.

Lemma query_messages_stripped_witness :
  messages_stripped
    (session (Toy.query_with (Toy.answers " one ") "uuid-1" Toy.empty_session
                {| QueryRequest.query := " first ";
                   QueryRequest.conversationId := None |}).2).
Proof.
  apply (query_messages_stripped Toy.encode Toy.cosine_similarity
           Toy.graded_courses Toy.instructors).
  intros cid history msg Hfound. discriminate Hfound.
Defined.

Lemma query_generation_succeeds_witness :
  strip " which course? " ≠ "" ∧
  (Toy.query_with (Toy.answers " Course A. ") "uuid-1" Toy.empty_session
     {| QueryRequest.query := " which course? ";
        QueryRequest.conversationId := Some "chat-1" |}).1
  = JSON [("response", strip " Course A. ")].
Proof.
  assert (strip " which course? " ≠ "") as Hq by (vm_compute; discriminate).
  split; [exact Hq|].
  exact (proj1 (query_generation_succeeds Toy.encode Toy.cosine_similarity
                  Toy.graded_courses Toy.instructors
                  (Toy.answers " Course A. ") "uuid-1" Toy.empty_session
                  {| QueryRequest.query := " which course? ";
                     QueryRequest.conversationId := Some "chat-1" |}
                  " Course A. " Hq eq_refl)).
Defined.


Lemma query_prompt_layout_witness :
  ∃ context,
    query_prompt Toy.encode Toy.cosine_similarity Toy.graded_courses
      Toy.instructors "uuid-1" Toy.empty_session
      {| QueryRequest.query := "first";
         QueryRequest.conversationId := None |}
    = prompt_header context
      +:+ join [] +:+ ("user: " +:+ strip "first" +:+ LF)
      +:+ prompt_footer (strip "first").
Proof.
  eexists.
  apply (query_prompt_layout Toy.encode Toy.cosine_similarity
           Toy.graded_courses Toy.instructors "uuid-1" Toy.empty_session
           {| QueryRequest.query := "first";
              QueryRequest.conversationId := None |}).
  intros cid history Hfound. discriminate Hfound.
Defined.

Lemma translate_append_only_witness :
  let s :=
    session (translate (Toy.answers "hola") "uuid-1" Toy.empty_session
               {| TranslateRequest.text := "hello";
                  TranslateRequest.target_lang := "es";
                  TranslateRequest.conversationId := Some "chat-1" |}).2 in
  ∃ added,
    translations
      (session (translate (Toy.answers "adios") "uuid-2" s
                  {| TranslateRequest.text := "bye";
                     TranslateRequest.target_lang := "es";
                     TranslateRequest.conversationId := Some "chat-1" |}).2)
      ≫= (.!! "chat-1")
    = Some ([{| original := "hello"; translation := "hola";
                language := "es" |}] ++ added).
Proof.
  intros s.
  apply (proj2 (translate_append_only (Toy.answers "adios") "uuid-2" s
                  {| TranslateRequest.text := "bye";
                     TranslateRequest.target_lang := "es";
                     TranslateRequest.conversationId := Some "chat-1" |})
           "chat-1").
  vm_compute. reflexivity.
Defined.

Lemma translate_records_stripped_witness :
  records_stripped
    (session (translate (Toy.answers " hola ") "uuid-1" Toy.empty_session
                {| TranslateRequest.text := " hello ";
                   TranslateRequest.target_lang := "es";
                   TranslateRequest.conversationId := None |}).2).
Proof.
  apply translate_records_stripped.
  intros cid records record Hfound. discriminate Hfound.
Defined.

Lemma translate_twice_witness :
  "chat-1" ≠ "" ∧ strip "hello" ≠ "" ∧ strip "bye" ≠ "" ∧
  translations
    (session
       (translate (Toy.answers "adios") "uuid-2"
          (session (translate (Toy.answers "hola") "uuid-1"
                      Toy.empty_session
                      {| TranslateRequest.text := "hello";
                         TranslateRequest.target_lang := "es";
                         TranslateRequest.conversationId := Some "chat-1" |}).2)
          {| TranslateRequest.text := "bye";
             TranslateRequest.target_lang := "es";
             TranslateRequest.conversationId := Some "chat-1" |}).2)
    ≫= (.!! "chat-1")
  = Some ([] ++ [{| original := strip "hello"; translation := strip "hola";
                    language := "es" |};
                 {| original := strip "bye"; translation := strip "adios";
                    language := "es" |}]).
Proof.
  assert ("chat-1" ≠ "") as Hcid by discriminate.
  assert (strip "hello" ≠ "") as Ht1 by (vm_compute; discriminate).
  assert (strip "bye" ≠ "") as Ht2 by (vm_compute; discriminate).
  split_and!; [exact Hcid|exact Ht1|exact Ht2|].
  exact (translate_twice (Toy.answers "hola") (Toy.answers "adios")
           "uuid-1" "uuid-2" Toy.empty_session "chat-1"
           "hello" "es" "bye" "es" "hola" "adios"
           Hcid Ht1 Ht2 eq_refl eq_refl).
Defined.

Lemma format_context_heading_witness :
  ∃ rest,
    format_context [] Toy.instructors = "Relevant Instructors:" +:+ rest.
Proof.
  apply (proj2 (format_context_heading [] Toy.instructors)); [reflexivity|].
  discriminate.
Defined.
